(** * Precision analysis of stochastic-rounding samples

    A shallow embedding of the analysis scripts under [examples/]: the
    per-coordinate aggregation (mean, standard deviation), the
    significant-digits estimators, the reference-based error metrics, the
    table loaders, the grid assembly and the coordinate filter.

    Number model.  A Python or NumPy float is idealised as a real number:
    rounding, overflow and underflow are not modelled, except where a
    statement depends on them: [GeluSigfigplotFloat] is the estimator of
    gelu/sigfigplot.py with its rounding operations made explicit, and
    [np_float32] is the rounding to single precision.  The special values
    the scripts create or test explicitly ([float('inf')], the NaN of a
    pandas standard deviation, the NaN of a coerced field) are kept apart in
    [pyfloat] and in [option], where [None] stands for NaN.  Every
    comparison the scripts perform is a decision on reals ([Req_dec_T],
    [Rlt_dec]). *)

From stdpp Require Import gmap strings list fin_maps sorting.
From Stdlib Require Import Reals Lra Lia ZArith.

Open Scope R_scope.

(** ** Numbers *)

(** A float result that may be [float('inf')]. *)
Inductive pyfloat : Type :=
  | Fin (r : R)
  | Inf.

#[export] Instance Req_decision : EqDecision R := Req_dec_T.
#[export] Instance Rlt_decision (x y : R) : Decision (x < y) := Rlt_dec x y.
#[export] Instance Rle_decision (x y : R) : Decision (x <= y) := Rle_dec x y.

(** [math.log10], [np.log10]; [math.log(2, 10)] is [log10 2]. *)
Definition log10 (x : R) : R := ln x / ln 10.

(** ** Aggregation of one group of samples *)

Definition Rsum (l : list R) : R := foldr Rplus 0 l.

(** [np.mean(values)] (also [Series.mean()]). *)
Definition np_mean (values : list R) : R :=
  Rsum values / INR (length values).

(** [np.std(values)]: the population standard deviation (ddof = 0),
    [sqrt(mean(abs(x - x.mean())**2))]. *)
Definition np_std (values : list R) : R :=
  let m := np_mean values in
  sqrt (np_mean (map (fun x => Rabs (x - m) ^ 2) values)).

(** [Series.std()] of pandas: the sample standard deviation (ddof = 1),
    NaN (here [None]) when the group has fewer than two samples. *)
Definition pd_std (values : list R) : option R :=
  let m := np_mean values in
  if (length values <=? 1)%nat then None
  else Some (sqrt (Rsum (map (fun x => (x - m) ^ 2) values)
                  / (INR (length values) - 1))).

(** ** gelu/sigfigplot.py (the same estimator is in gelu/plot.py) *)
Module GeluSigfigplot.

(** [prec_dec = float(prec_b) * math.log(2, 10)] *)
Definition prec_dec (prec_b : R) : R := prec_b * log10 2.

(** The body of the loop over [x_values]: the value [s] appended to
    [s_values] for the statistics [mu], [sigma]. *)
Definition s (mu sigma prec_dec : R) : R :=
  if decide (sigma = 0) then prec_dec
  else if decide (mu = 0) then 0
  else Rmin (- log10 (sigma / Rabs mu)) prec_dec.

(** One iteration for the samples of one [x]. *)
Definition main_group (result_samples : list R) (prec_b : R) : R * R * R :=
  let mu := np_mean result_samples in
  let sigma := np_std result_samples in
  (mu, sigma, s mu sigma (prec_dec prec_b)).

End GeluSigfigplot.

(** ** gelu/sigfigplot.py on doubles *)
Module GeluSigfigplotFloat.

(** The same loop body with the two operations that round made explicit;
    a double is the real number it denotes.  [fdiv] is the division of two
    doubles and [flog10] is [math.log10] of the C library; the comparisons,
    [abs], the unary minus and [min] are exact on doubles. *)
Definition s (fdiv : R -> R -> R) (flog10 : R -> R)
    (mu sigma prec_dec : R) : R :=
  if decide (sigma = 0) then prec_dec
  else if decide (mu = 0) then 0
  else Rmin (- flog10 (fdiv sigma (Rabs mu))) prec_dec.

(** The doubles that the literals [0.3] and [0.6] denote. *)
Definition double_0_3 : R := 5404319552844595 / 18014398509481984.
Definition double_0_6 : R := 5404319552844595 / 9007199254740992.

(** [prec_dec] for [prec_b = 53]: the double [15.954589770191001]. *)
Definition prec_dec_53 : R := 8981635567985165 / 562949953421312.

(** The double [0.3010299956639812] that [math.log10(2)] returns. *)
Definition double_log10_2 : R := 5422874305198591 / 18014398509481984.

(** [math.log10] at the two doubles above, as the C library returns it:
    [-0.5228787452803376] and [-0.22184874961635637].  No other argument
    is used with this function; the exact logarithm stands there. *)
Definition math_log10 (x : R) : R :=
  if decide (x = double_0_3)
  then - (2354836522404481 / 4503599627370496)
  else if decide (x = double_0_6)
  then - (999117946104833 / 4503599627370496)
  else log10 x.

End GeluSigfigplotFloat.

(** ** softmax/plot.py: the estimator of [compute_statistics] *)
Module SoftmaxPlotStats.

(** [max_sig_digits = precision_bits * np.log10(2)]; [precision_bits] is
    an [int] argument. *)
Definition max_sig_digits (precision_bits : Z) : R :=
  IZR precision_bits * log10 2.

Definition sig_digits (mean_val std_val max_sig_digits : R) : R :=
  if decide (std_val < 1e-15 \/ std_val = 0) then max_sig_digits
  else if decide (mean_val = 0) then 0
  else Rmin (- log10 (std_val / Rabs mean_val)) max_sig_digits.

(** The statistics of one group of [values]. *)
Definition group_statistics (values : list R) (precision_bits : Z)
  : R * R * R :=
  let mean_val := np_mean values in
  let std_val := np_std values in
  (mean_val, std_val,
   sig_digits mean_val std_val (max_sig_digits precision_bits)).

End SoftmaxPlotStats.

(** ** gelu/ulpplot.py: statistics of one group *)
Module GeluUlpplotStats.

Definition sig_digits (mean_val : R) (std_dev : option R) : pyfloat :=
  match std_dev with
  | Some sd =>
      if bool_decide (mean_val <> 0) && bool_decide (0 < sd)
      then Fin (- log10 (sd / Rabs mean_val))
      else if bool_decide (sd = 0) then Inf else Fin 0
  | None => Fin 0   (* NaN > 0 and NaN == 0 are both false *)
  end.

Definition group_statistics (mca_results : list R)
  : R * option R * pyfloat :=
  let mean_val := np_mean mca_results in
  let std_dev := pd_std mca_results in
  (mean_val, std_dev, sig_digits mean_val std_dev).

End GeluUlpplotStats.

(** ** softmax/ulpscript.py and parallel_sum/ulpscript.py: statistics *)
Module UlpscriptStats.

Definition sig_digits (mean_val : R) (std_dev : option R) : pyfloat :=
  match std_dev with
  | Some sd =>
      if bool_decide (mean_val <> 0) && bool_decide (0 < sd)
      then Fin (- log10 (sd / Rabs mean_val))
      else Inf
  | None => Inf   (* NaN > 0 is false *)
  end.

End UlpscriptStats.

(** ** Failures *)

(** The exceptions the scripts can meet, and how a computation ends: with a
    value, with [sys.exit(status)], or with an exception nobody catches. *)
Inductive exn : Type :=
  | CalledProcessError (returncode : Z)
  | ValueError
  | ParserError.   (* of pandas; a subclass of ValueError *)

Inductive outcome (A : Type) : Type :=
  | Ok (a : A)
  | SysExit (status : Z)
  | Raise (e : exn).
Arguments Ok {A} a.
Arguments SysExit {A} status.
Arguments Raise {A} e.

#[export] Instance outcome_ret : MRet outcome := @Ok.
#[export] Instance outcome_bind : MBind outcome := fun A B f m =>
  match m with
  | Ok a => f a
  | SysExit status => SysExit status
  | Raise e => Raise e
  end.

(** A [for] loop whose body writes one CSV row per group: the rows written
    so far are the state, and the first failure of the body ends the loop
    (and the script) with the rows written before it. *)
Fixpoint for_each {G Row : Type} (body : G -> outcome Row) (groups : list G)
    (written : list Row) : list Row * outcome unit :=
  match groups with
  | [] => (written, Ok tt)
  | g :: rest =>
      match body g with
      | Ok row => for_each body rest (written ++ [row])
      | SysExit status => (written, SysExit status)
      | Raise e => (written, Raise e)
      end
  end.

(** ** The external reference program *)

(** What one run of the reference program gives back: its exit status and
    the float its standard output denotes ([None] when [float(...)] cannot
    parse it). *)
Record CompletedProcess : Type := {
  returncode : Z;
  stdout_float : option R
}.

(** [subprocess.run(..., check=True)] *)
Definition subprocess_run_check (p : CompletedProcess)
  : outcome CompletedProcess :=
  if decide (returncode p = 0%Z) then Ok p
  else Raise (CalledProcessError (returncode p)).

(** [float(result.stdout.strip())] *)
Definition float_of_stdout (p : CompletedProcess) : outcome R :=
  match stdout_float p with
  | Some v => Ok v
  | None => Raise ValueError
  end.

(** ** np.spacing *)

#[export] Instance R_inhabited : Inhabited R := populate 0.

(** The binary exponent of a nonzero [x]: [2^e <= |x| < 2^(e+1)]. *)
Definition exponent (x : R) : Z := Zfloor (ln (Rabs x) / ln 2).

(** [np.spacing(x)] for a finite [x] of the binary format with [prec] bits
    of precision and least normal exponent [emin]: the signed distance from
    [x] to the next representable value away from zero.  It has the sign of
    [x]; at zero it is the least positive subnormal. *)
Definition spacing (prec emin : Z) (x : R) : R :=
  if decide (x = 0) then powerRZ 2 (emin - prec + 1)
  else (if decide (x < 0) then -1 else 1)
       * powerRZ 2 (Z.max (exponent x) emin - prec + 1).

Definition spacing64 : R -> R := spacing 53 (-1022).
Definition spacing32 : R -> R := spacing 24 (-126).

(** ** np.float32 *)

(** The integer nearest to [r], the even one of the two when [r] is half
    way. *)
Definition round_half_even (r : R) : Z :=
  let f := Zfloor r in
  if decide (r - IZR f < 1 / 2) then f
  else if decide (1 / 2 < r - IZR f) then (f + 1)%Z
  else if Z.even f then f else (f + 1)%Z.

(** [np.float32(x)] for a double [x]: the nearest number with 24 bits of
    precision (subnormal below [2 ^ -126]), ties to even.  The overflow to
    [inf] of a magnitude beyond the largest float32 is not modelled. *)
Definition np_float32 (x : R) : R :=
  if decide (x = 0) then 0
  else
    let u := powerRZ 2 (Z.max (exponent x) (-126) - 23) in
    IZR (round_half_even (x / u)) * u.

(** ** gelu/ulpplot.py *)
Module GeluUlpplot.

Definition get_true_value (x : R) (c_program : R -> CompletedProcess)
  : outcome R :=
  match p ← subprocess_run_check (c_program x); float_of_stdout p with
  | Ok v => Ok v
  | Raise (CalledProcessError _) => SysExit 1
  | Raise ValueError => SysExit 1
  | Raise ParserError => SysExit 1   (* caught as a ValueError *)
  | SysExit status => SysExit status
  end.

Definition ulp_error (mean_val true_val : R) : R :=
  let abs_error := Rabs (mean_val - true_val) in
  let ulp := Rabs (spacing64 true_val) in
  if decide (ulp <> 0) then abs_error / ulp else 0.

(** One row of the output CSV. *)
Record csv_row : Type := {
  row_x : R;
  row_mean : R;
  row_std_dev : option R;
  row_significant_digits : pyfloat;
  row_true_value : R;
  row_abs_error : R;
  row_ulp_error : R
}.

(** The body of the loop over [grouped]. *)
Definition process_group (c_program : R -> CompletedProcess)
    (g : R * list R) : outcome csv_row :=
  let '(x_value, mca_results) := g in
  let '(mean_val, std_dev, sig_digits) :=
    GeluUlpplotStats.group_statistics mca_results in
  true_val ← get_true_value x_value c_program;
  mret {| row_x := x_value;
          row_mean := mean_val;
          row_std_dev := std_dev;
          row_significant_digits := sig_digits;
          row_true_value := true_val;
          row_abs_error := Rabs (mean_val - true_val);
          row_ulp_error := ulp_error mean_val true_val |}.

(** The loop of [main] over the groups, in the order of [groupby]. *)
Definition main_loop (c_program : R -> CompletedProcess)
    (grouped : list (R * list R)) : list csv_row * outcome unit :=
  for_each (process_group c_program) grouped [].

End GeluUlpplot.

(** ** parallel_sum/ulpscript.py *)
Module ParallelSumUlpscript.

(** [parallel_5ref] is the reference program [./parallel_5ref]. *)
Definition get_true_value (parallel_5ref : R -> CompletedProcess) (x : R)
  : outcome R :=
  p ← subprocess_run_check (parallel_5ref x); float_of_stdout p.

Definition ulp_error (mean_val true_val : R) : R :=
  let abs_error := Rabs (mean_val - true_val) in
  let ulp := spacing64 true_val in
  if decide (0 < ulp) then abs_error / ulp else 0.

End ParallelSumUlpscript.

(** ** softmax/ulpscript.py *)
Module SoftmaxUlpscript.

(** [softmax_ref2] is the reference program [./softmax_ref2]. *)
Definition get_true_value (softmax_ref2 : R * R * R -> CompletedProcess)
    (x0 x1 x2 : R) : outcome R :=
  p ← subprocess_run_check (softmax_ref2 (x0, x1, x2)); float_of_stdout p.

(** The spacing is the one of [true_val_f32 = np.float32(true_val)]; the
    error is measured from [true_val] itself. *)
Definition ulp_error (mean_val true_val : R) : R :=
  let abs_error := Rabs (mean_val - true_val) in
  let true_val_f32 := np_float32 true_val in
  let ulp := spacing32 true_val_f32 in
  if decide (0 < ulp) then abs_error / ulp else 0.

Record csv_row : Type := {
  row_x0 : R; row_x1 : R; row_x2 : R;
  row_mean : R;
  row_std_dev : option R;
  row_significant_digits : pyfloat;
  row_ulp_error : R
}.

(** The body of the loop over [grouped]; a group key is never NaN here,
    so the [continue] of the script is not taken. *)
Definition process_group (softmax_ref2 : R * R * R -> CompletedProcess)
    (g : R * R * R * list R) : outcome csv_row :=
  let '(x0, x1, x2, mca_results) := g in
  let mean_val := np_mean mca_results in
  let std_dev := pd_std mca_results in
  let sig_digits := UlpscriptStats.sig_digits mean_val std_dev in
  true_val ← get_true_value softmax_ref2 x0 x1 x2;
  mret {| row_x0 := x0; row_x1 := x1; row_x2 := x2;
          row_mean := mean_val;
          row_std_dev := std_dev;
          row_significant_digits := sig_digits;
          row_ulp_error := ulp_error mean_val true_val |}.

Definition main_loop (softmax_ref2 : R * R * R -> CompletedProcess)
    (grouped : list (R * R * R * list R)) : list csv_row * outcome unit :=
  for_each (process_group softmax_ref2) grouped [].

End SoftmaxUlpscript.

(** ** gelu/plot.py: the relative error against the expected function *)
Module GeluPlot.

Definition rel_err (mu expected : R) : R :=
  if decide (expected <> 0) then Rabs (mu - expected) / Rabs expected
  else if decide (mu <> expected) then Rabs (mu - expected) else 0.

(** [expected] is [None] when no expected function was given: then no
    relative error is appended. *)
Definition relative_error (mu : R) (expected : option R) : option R :=
  rel_err mu <$> expected.

End GeluPlot.

(** ** Loading the table with pandas
    (gelu/ulpplot.py, parallel_sum/ulpscript.py) *)
Module PandasLoad.

(** One field of the frame that [pd.read_csv] returns: text that denotes
    a number, any other text, or no field at all (NaN). *)
Inductive cell : Type :=
  | Num (v : R)
  | Str (text : string)
  | Missing.

(** One row of the frame, columns [i], [x], [result]. *)
Record raw_row : Type := { raw_i : cell; raw_x : cell; raw_result : cell }.

(** A row that survived [dropna]. *)
Record sample : Type := { i : cell; x : R; result : R }.

(** [pd.to_numeric(column, errors='coerce')] on one field: what is not a
    number becomes NaN. *)
Definition to_numeric (c : cell) : option R :=
  match c with
  | Num v => Some v
  | Str _ | Missing => None
  end.

(** The two conversions followed by [df.dropna()] on one row: the row is
    kept when no field is NaN. *)
Definition coerce_dropna (r : raw_row) : option sample :=
  match raw_i r, to_numeric (raw_x r), to_numeric (raw_result r) with
  | Missing, _, _ => None
  | c, Some vx, Some vr => Some {| i := c; x := vx; result := vr |}
  | _, _, _ => None
  end.

Definition dropna (df : list raw_row) : list sample :=
  omap coerce_dropna df.

(** gelu/ulpplot.py: conversion, [dropna], then the test [df.empty]. *)
Definition load (df : list raw_row) : outcome (list sample) :=
  match dropna df with
  | [] => SysExit 1
  | kept => Ok kept
  end.

(** parallel_sum/ulpscript.py has no test for an empty frame. *)
Definition load_unchecked (df : list raw_row) : outcome (list sample) :=
  Ok (dropna df).

(** *** [pd.read_csv]

    [pd.read_csv(file, delim_whitespace=True, comment='#',
    names=['i', 'x', 'result'])].  A line of the file is given by its
    fields, the comment after ['#'] removed; a field that read_csv takes
    for NaN (['NaN'], ['NA'], ...) is [Missing].  A line without field (a
    blank line, a comment alone) is skipped. *)
Definition nonblank (fields : list cell) : bool :=
  match fields with
  | [] => false
  | _ :: _ => true
  end.

(** The number of fields that read_csv expects in a line: the number of
    fields of the first line, and at least the three of [names]. *)
Definition expected_fields (lines : list (list cell)) : nat :=
  match lines with
  | [] => 3
  | first :: _ => Nat.max (length first) 3
  end.

(** The row of one line.  When the first line has more than three fields,
    the leading fields are taken as the index of the frame and the last
    three are [i], [x], [result]; a field that a line does not have is
    NaN. *)
Definition row_of_fields (leading_cols : nat) (fields : list cell)
  : raw_row :=
  {| raw_i := default Missing (fields !! leading_cols);
     raw_x := default Missing (fields !! (leading_cols + 1)%nat);
     raw_result := default Missing (fields !! (leading_cols + 2)%nat) |}.

(** A line with more fields than expected makes read_csv raise
    [ParserError] ([Expected 3 fields in line 5, saw 4]); the first line is
    never such a line. *)
Definition read_csv (lines : list (list cell)) : outcome (list raw_row) :=
  let lines := List.filter nonblank lines in
  let expected := expected_fields lines in
  if existsb (fun fields => (expected <? length fields)%nat) lines
  then Raise ParserError
  else Ok (row_of_fields (expected - 3) <$> lines).

(** gelu/ulpplot.py, lines 60-85: read_csv is inside [try], and
    [except Exception] ends the script with [sys.exit(1)]. *)
Definition load_file (lines : list (list cell)) : outcome (list sample) :=
  match read_csv lines with
  | Ok df => load df
  | SysExit status => SysExit status
  | Raise _ => SysExit 1
  end.

(** parallel_sum/ulpscript.py, lines 30-41: nothing is caught. *)
Definition load_file_unchecked (lines : list (list cell))
  : outcome (list sample) :=
  df ← read_csv lines; load_unchecked df.

End PandasLoad.

(** ** harmonic/heatmap.py: the square grid *)
Module HarmonicHeatmap.

(** [values.reshape((side, side)).T]: cell [(row, col)] of the grid is
    element [col * side + row] of the flat array. *)
Definition reshape_T (side : nat) (values : list R) : list (list R) :=
  (fun row => (fun col => values !!! (col * side + row)%nat) <$> seq 0 side)
    <$> seq 0 side.

(** From the loaded [errors] to [err_grid]: [N = errors.size],
    [side = int(np.sqrt(N))]. *)
Definition err_grid (errors : list R) : outcome (list (list R)) :=
  let N := length errors in
  let side := Nat.sqrt N in
  if decide ((side * side)%nat <> N) then Raise ValueError
  else Ok (reshape_T side errors).

End HarmonicHeatmap.

(** ** softmax/plot.py: statistics and heat map for two inputs *)
Module SoftmaxPlot.

(** [np.unique]: the distinct values in increasing order. *)
Fixpoint insert_unique (v : R) (sorted : list R) : list R :=
  match sorted with
  | [] => [v]
  | w :: rest =>
      if decide (v < w) then v :: sorted
      else if decide (v = w) then sorted
      else w :: insert_unique v rest
  end.

Definition np_unique (values : list R) : list R :=
  foldr insert_unique [] values.

(** [np.min], [np.max] of a group (0 stands for the error of an empty
    one, which the loop never passes). *)
Definition np_min (values : list R) : R :=
  match values with
  | [] => 0
  | v :: rest => foldl Rmin v rest
  end.

Definition np_max (values : list R) : R :=
  match values with
  | [] => 0
  | v :: rest => foldl Rmax v rest
  end.

(** One record of the table with two inputs: [i x0 x1 result]. *)
Record row : Type := { i : Z; x0 : R; x1 : R; result : R }.

(** One entry of [stats]. *)
Record stat : Type := {
  stat_x0 : R; stat_x1 : R;
  stat_mean : R; stat_std : R;
  stat_min : R; stat_max : R;
  stat_count : nat;
  stat_sig_digits : R
}.

(** [compute_statistics(data, n_inputs, precision_bits)], the branch
    [n_inputs == 2]: a pair of unique values without any row is passed
    over ([if np.any(mask)]). *)
Definition compute_statistics (data : list row) (precision_bits : Z)
  : list stat :=
  let max_sig_digits := SoftmaxPlotStats.max_sig_digits precision_bits in
  u0 ← np_unique (x0 <$> data);
  u1 ← np_unique (x1 <$> data);
  let values :=
    result <$> filter (fun r => x0 r = u0 /\ x1 r = u1) data in
  match values with
  | [] => []
  | _ =>
      let mean_val := np_mean values in
      let std_val := np_std values in
      [ {| stat_x0 := u0; stat_x1 := u1;
           stat_mean := mean_val; stat_std := std_val;
           stat_min := np_min values; stat_max := np_max values;
           stat_count := length values;
           stat_sig_digits :=
             SoftmaxPlotStats.sig_digits mean_val std_val max_sig_digits |} ]
  end.

(** [list.index]: the first position of [v] (the length of the list stands
    for the error of an absent value, which the heat map never meets). *)
Fixpoint index (l : list R) (v : R) : nat :=
  match l with
  | [] => 0
  | w :: rest => if decide (w = v) then 0%nat else S (index rest v)
  end.

(** [matrix[j, i] = v] *)
Definition set_cell (matrix : list (list R)) (j i : nat) (v : R)
  : list (list R) :=
  <[j := <[i := v]> (matrix !!! j)]> matrix.

(** [plot_2d_heatmap], the branch [n_inputs == 2]: the matrix of
    significant digits, [np.zeros] filled from [stats]. *)
Definition sig_digits_matrix (stats : list stat) : list (list R) :=
  let unique_x0 := np_unique (stat_x0 <$> stats) in
  let unique_x1 := np_unique (stat_x1 <$> stats) in
  foldl (fun matrix s =>
           set_cell matrix (index unique_x1 (stat_x1 s))
                    (index unique_x0 (stat_x0 s)) (stat_sig_digits s))
        (replicate (length unique_x1) (replicate (length unique_x0) 0))
        stats.

(** *** [filter_data] *)

(** The structured array: the field names of its dtype and its records,
    each a map from field name to value. *)
Record ndarray : Type := {
  dtype_names : list string;
  records : list (gmap string R)
}.

(** The dictionary [filters] built from the pairs [var=val] of the filter
    string, in order: a later pair for the same variable replaces the
    earlier one. *)
Definition parse_filters (pairs : list (string * R)) : gmap string R :=
  foldl (fun filters (p : string * R) => <[p.1 := p.2]> filters) ∅ pairs.

(** One turn of the loop over [filters.items()]:
    [mask &= np.abs(data[var] - val) < 1e-10] when [var] is a field. *)
Definition mask_step (data : ndarray) (mask : list bool)
    (item : string * R) : list bool :=
  let '(var, val) := item in
  if decide (var ∈ dtype_names data) then
    zip_with andb mask
      ((fun r => bool_decide (Rabs (r !!! var - val) < 1e-10))
         <$> records data)
  else mask.

(** [data[mask]] *)
Definition select (mask : list bool) (rows : list (gmap string R))
  : list (gmap string R) :=
  zip mask rows
    ≫= (fun p : bool * gmap string R => if p.1 then [p.2] else []).

(** [filter_data(data, filter_str, n_inputs)]; [pairs] is the filter
    string split at [','] and ['='] with each value converted by [float],
    and the empty list is the empty (or absent) string.  The loop visits
    the items of the dictionary; its result does not depend on their
    order. *)
Definition filter_data (data : ndarray) (pairs : list (string * R))
  : ndarray :=
  match pairs with
  | [] => data
  | _ =>
      let filters := parse_filters pairs in
      let mask :=
        foldl (mask_step data) (replicate (length (records data)) true)
              (map_to_list filters) in
      {| dtype_names := dtype_names data;
         records := select mask (records data) |}
  end.

End SoftmaxPlot.

(** ** gelu/sigfigplot.py and gelu/plot.py: the header lines and the table *)
Module GeluTable.

(** One field of a line, as [int(...)] and [float(...)] see it: an integer
    literal, another float literal, or text that neither accepts. *)
Inductive token : Type :=
  | IntLit (z : Z)
  | FloatLit (v : R)
  | Word (text : string).

Definition int_ok (t : token) : bool :=
  match t with
  | IntLit _ => true
  | FloatLit _ | Word _ => false
  end.

Definition float_ok (t : token) : bool :=
  match t with
  | IntLit _ | FloatLit _ => true
  | Word _ => false
  end.

(** One line of the file: it starts with ['#'], or it is the line of the
    column names ['i x result'], or it is any other line, given by its
    fields [line.strip().split()]. *)
Inductive line : Type :=
  | Comment (text : string)
  | ColumnNames
  | Fields (parts : list token).

(** The test of the [try] block: at least three fields, the first an
    integer, the next two floats. *)
Definition is_data_line (parts : list token) : bool :=
  match parts with
  | p0 :: p1 :: p2 :: _ => int_ok p0 && float_ok p1 && float_ok p2
  | _ => false
  end.

(** The loop that counts [header_lines]: it stops ([break]) at the first
    data line. *)
Fixpoint header_lines (f : list line) : nat :=
  match f with
  | [] => 0
  | Comment _ :: rest => S (header_lines rest)
  | ColumnNames :: rest => S (header_lines rest)
  | Fields parts :: rest =>
      if is_data_line parts then 0%nat else S (header_lines rest)
  end.

(** One record of the loaded table [D]. *)
Record row : Type := { i : Z; x : R; result : R }.

(** [x_values = np.unique(D['x'])] *)
Definition x_values (D : list row) : list R :=
  SoftmaxPlot.np_unique (x <$> D).

(** [D[D['x'] == x]['result']] *)
Definition result_samples (D : list row) (xv : R) : list R :=
  result <$> filter (fun r => x r = xv) D.

(** The loop over [x_values]: the lists [mu_values], [sigma_values] and
    [s_values], here as one list of triples. *)
Definition statistics (D : list row) (prec_b : R) : list (R * R * R) :=
  (fun xv => GeluSigfigplot.main_group (result_samples D xv) prec_b)
    <$> x_values D.

Definition s_values (D : list row) (prec_b : R) : list R :=
  snd <$> statistics D prec_b.

(** The summary printed at the end: [np.mean], [np.min] and [np.max] of
    [s_values]; [np.min] of an empty list raises [ValueError]. *)
Definition summary (s_values : list R) : outcome (R * R * R) :=
  match s_values with
  | [] => Raise ValueError
  | _ => Ok (np_mean s_values, SoftmaxPlot.np_min s_values,
             SoftmaxPlot.np_max s_values)
  end.

End GeluTable.

(** ** gelu/ulpplot.py: the largest error in ULPs *)
Module GeluUlpplotSummary.

(** One turn of the loop on the pair ([max_ulp_error], [max_ulp_x]):
    [if ulp_error > max_ulp_error: ...]. *)
Definition track (state : R * option R) (row : GeluUlpplot.csv_row)
  : R * option R :=
  if decide (state.1 < GeluUlpplot.row_ulp_error row)
  then (GeluUlpplot.row_ulp_error row, Some (GeluUlpplot.row_x row))
  else state.

(** The pair after the loop has written [rows]; it starts from
    [(0.0, None)]. *)
Definition max_ulp (rows : list GeluUlpplot.csv_row) : R * option R :=
  foldl track (0, None) rows.

End GeluUlpplotSummary.

(** ** softmax/plot.py: the varying inputs and the choice of the plot *)
Module SoftmaxPlotMain.

(** [data[:, k]] on the two-dimensional array [data]: [None] stands for the
    [IndexError] of a row without column [k]. *)
Definition column (k : nat) (data : list (list R)) : option (list R) :=
  mapM (fun r : list R => r !! k) data.

(** The test on one input of [detect_input_count]: the name of the input
    when it is counted and its column has more than one unique value. *)
Definition varying (total_inputs : Z) (k : nat) (name : string)
    (data : list (list R)) : option (list string) :=
  if decide (Z.of_nat k <= total_inputs)%Z then
    values ← column k data;
    mret (if decide (1 < length (SoftmaxPlot.np_unique values))%nat
          then [name] else [])
  else mret [].

(** The second half of [detect_input_count]: [varying_inputs]. *)
Definition varying_inputs (total_inputs : Z) (data : list (list R))
  : option (list string) :=
  v0 ← varying total_inputs 1 "x0" data;
  v1 ← varying total_inputs 2 "x1" data;
  v2 ← varying total_inputs 3 "x2" data;
  mret (v0 ++ v1 ++ v2).

(** The values of [--plot-type]. *)
Inductive plot_type : Type :=
  | Auto | Line | Scatter | Heatmap | ThreeD | Stats.

(** The function that draws the figure. *)
Inductive figure : Type :=
  | Plot1dData (varying_input : string)
  | Plot2dHeatmap
  | PlotStatisticsSummary.

(** [main]: from [args.plot_type] and [n_varying] to the figure drawn, and
    whether the warning [not suitable] is printed. *)
Definition choose_figure (arg : plot_type) (n_varying : nat)
    (varying_inputs : list string) : figure * bool :=
  let plot_type :=
    match arg with
    | Auto =>
        if decide (n_varying = 1%nat) then Line
        else if decide (n_varying = 2%nat) then Heatmap
        else Stats
    | _ => arg
    end in
  match plot_type with
  | Line =>
      if decide (n_varying = 1%nat)
      then (Plot1dData (default "x0" (head varying_inputs)), false)
      else (PlotStatisticsSummary, true)
  | Heatmap =>
      if decide (n_varying = 2%nat) then (Plot2dHeatmap, false)
      else (PlotStatisticsSummary, true)
  | Stats => (PlotStatisticsSummary, false)
  | _ => (PlotStatisticsSummary, true)
  end.

End SoftmaxPlotMain.

(** ** Predicates and inputs used in the statements *)

(** The reference program answered: exit status 0 and a parsable float. *)
Definition oracle_ok (p : CompletedProcess) : Prop :=
  returncode p = 0%Z /\ is_Some (stdout_float p).

#[export] Instance oracle_ok_dec p : Decision (oracle_ok p) :=
  and_dec (decide (returncode p = 0%Z)) (decide (is_Some (stdout_float p))).

(** A row that [dropna] removes: a field is missing or is not a number. *)
Definition malformed (r : PandasLoad.raw_row) : Prop :=
  PandasLoad.raw_i r = PandasLoad.Missing
  \/ PandasLoad.to_numeric (PandasLoad.raw_x r) = None
  \/ PandasLoad.to_numeric (PandasLoad.raw_result r) = None.

(** A record passes the filters: every filter variable that is a field of
    the array is within the tolerance of its value. *)
Definition row_matches (names : list string) (filters : gmap string R)
    (r : gmap string R) : Prop :=
  forall var val, filters !! var = Some val ->
    var ∈ names -> Rabs (r !!! var - val) < 1e-10.

#[export] Instance row_matches_dec names filters r :
  Decision (row_matches names filters r) :=
  map_Forall_dec
    (fun var val => var ∈ names -> Rabs (r !!! var - val) < 1e-10) filters.

(** The value that the pairs [var=val] of a filter string give to [var]:
    the one of the last pair that names [var]. *)
Fixpoint filter_value (pairs : list (string * R)) (var : string)
  : option R :=
  match pairs with
  | [] => None
  | (k, v) :: rest =>
      match filter_value rest var with
      | Some w => Some w
      | None => if decide (k = var) then Some v else None
      end
  end.

(** A record passes the filter string: every variable that the string
    names and that is a field of the array is within the tolerance of the
    value the string gives it. *)
Definition passes (names : list string) (pairs : list (string * R))
    (r : gmap string R) : Prop :=
  Forall (fun p : string * R =>
            match filter_value pairs p.1 with
            | Some val => p.1 ∈ names -> Rabs (r !!! p.1 - val) < 1e-10
            | None => True
            end) pairs.

#[export] Instance passes_dec names pairs r : Decision (passes names pairs r).
Proof.
  apply Forall_dec. intros p.
  destruct (filter_value pairs p.1); apply _.
Defined.

(** The same for one item of the dictionary. *)
Definition item_matches (names : list string) (r : gmap string R)
    (item : string * R) : Prop :=
  item.1 ∈ names -> Rabs (r !!! item.1 - item.2) < 1e-10.

(** ** Inputs of the examples *)

(** The reference program of the counterexample: it fails on the
    coordinate 1 and prints twice its argument elsewhere. *)
Definition failing_at_one (x : R) : CompletedProcess :=
  if decide (x = 1) then {| returncode := 1; stdout_float := None |}
  else {| returncode := 0; stdout_float := Some (2 * x) |}.

(** The table of the counterexample: the unique values are 0 and 1 for
    both inputs, and the pair (1, 1) has no row. *)
Definition three_of_four : list SoftmaxPlot.row :=
  [ {| SoftmaxPlot.i := 1; SoftmaxPlot.x0 := 0; SoftmaxPlot.x1 := 0;
       SoftmaxPlot.result := 7 |};
    {| SoftmaxPlot.i := 1; SoftmaxPlot.x0 := 0; SoftmaxPlot.x1 := 1;
       SoftmaxPlot.result := 7 |};
    {| SoftmaxPlot.i := 1; SoftmaxPlot.x0 := 1; SoftmaxPlot.x1 := 0;
       SoftmaxPlot.result := 7 |} ].

(** A table with two inputs and two records. *)
Definition two_rows : SoftmaxPlot.ndarray :=
  {| SoftmaxPlot.dtype_names := ["i"; "x0"; "x1"; "result"];
     SoftmaxPlot.records :=
       [ {["i" := 1; "x0" := 2; "x1" := 0; "result" := 7]};
         {["i" := 1; "x0" := 2; "x1" := 1; "result" := 8]} ] |}.

(** ** Notions used in the further properties *)

(** A line that [np.loadtxt] can read as a record. *)
Definition data_line (ln : GeluTable.line) : Prop :=
  exists parts,
    ln = GeluTable.Fields parts /\ GeluTable.is_data_line parts = true.

(** The order of the entries: by [x0], then by [x1]. *)
Definition stat_lt (a b : SoftmaxPlot.stat) : Prop :=
  SoftmaxPlot.stat_x0 a < SoftmaxPlot.stat_x0 b
  \/ (SoftmaxPlot.stat_x0 a = SoftmaxPlot.stat_x0 b
      /\ SoftmaxPlot.stat_x1 a < SoftmaxPlot.stat_x1 b).

(** The entries of one value [u0] of the first input. *)
Definition stats_of_x0 (data : list SoftmaxPlot.row) (precision_bits : Z)
    (unique_x1 : list R) (u0 : R) : list SoftmaxPlot.stat :=
  u1 ← unique_x1;
  let values :=
    SoftmaxPlot.result
      <$> filter (fun r => SoftmaxPlot.x0 r = u0 /\ SoftmaxPlot.x1 r = u1)
                 data in
  match values with
  | [] => []
  | _ =>
      [ {| SoftmaxPlot.stat_x0 := u0; SoftmaxPlot.stat_x1 := u1;
           SoftmaxPlot.stat_mean := np_mean values;
           SoftmaxPlot.stat_std := np_std values;
           SoftmaxPlot.stat_min := SoftmaxPlot.np_min values;
           SoftmaxPlot.stat_max := SoftmaxPlot.np_max values;
           SoftmaxPlot.stat_count := length values;
           SoftmaxPlot.stat_sig_digits :=
             SoftmaxPlotStats.sig_digits (np_mean values) (np_std values)
               (SoftmaxPlotStats.max_sig_digits precision_bits) |} ]
  end.

(** The cell in row [j] and column [i] of a matrix. *)
Definition cell (matrix : list (list R)) (j i : nat) : option R :=
  matrix !! j ≫= (.!! i).

(** The loop of [plot_2d_heatmap] over [stats], for given lists of unique
    values. *)
Definition fill_matrix (unique_x0 unique_x1 : list R)
    (stats : list SoftmaxPlot.stat) : list (list R) :=
  foldl (fun matrix s =>
           SoftmaxPlot.set_cell matrix
             (SoftmaxPlot.index unique_x1 (SoftmaxPlot.stat_x1 s))
             (SoftmaxPlot.index unique_x0 (SoftmaxPlot.stat_x0 s))
             (SoftmaxPlot.stat_sig_digits s))
        (replicate (length unique_x1) (replicate (length unique_x0) 0))
        stats.

(** Two rows of the array differ in column [k]. *)
Definition differ (k : nat) (data : list (list R)) : Prop :=
  exists r1 r2 a b,
    r1 ∈ data /\ r2 ∈ data
    /\ r1 !! k = Some a /\ r2 !! k = Some b /\ a <> b.

(** * Properties *)

(** ** Logarithms *)

Lemma ln_10_pos : 0 < ln 10.
Proof. rewrite <- ln_1. apply ln_increasing; lra. Qed.

Lemma log10_2_pos : 0 < log10 2.
Proof.
  unfold log10. apply Rdiv_lt_0_compat; [|apply ln_10_pos].
  rewrite <- ln_1. apply ln_increasing; lra.
Qed.

Lemma log10_10 : log10 10 = 1.
Proof. unfold log10. field. pose proof ln_10_pos. lra. Qed.

Lemma log10_mult x y : 0 < x -> 0 < y -> log10 (x * y) = log10 x + log10 y.
Proof.
  intros Hx Hy. unfold log10. rewrite ln_mult by assumption.
  field. pose proof ln_10_pos. lra.
Qed.

Lemma log10_le_0 x : 0 < x -> (log10 x <= 0 <-> x <= 1).
Proof.
  intros Hx. pose proof ln_10_pos as H10. unfold log10. split.
  - intros H. destruct (Rle_dec x 1) as [|Hn]; [assumption|].
    assert (0 < ln x) by (rewrite <- ln_1; apply ln_increasing; lra).
    assert (0 < ln x / ln 10) by (apply Rdiv_lt_0_compat; assumption).
    lra.
  - intros H. assert (ln x <= 0).
    { destruct H as [H | ->]; [|rewrite ln_1; lra].
      rewrite <- ln_1. left. apply ln_increasing; lra. }
    unfold Rdiv. assert (0 < / ln 10) by (apply Rinv_0_lt_compat; lra). nra.
Qed.

(** ** Aggregation *)

Lemma np_mean_single v : np_mean [v] = v.
Proof. unfold np_mean. simpl. field. Qed.

Lemma np_std_single v : np_std [v] = 0.
Proof.
  unfold np_std. rewrite np_mean_single. cbn [map]. rewrite np_mean_single.
  replace (v - v) with 0 by lra. rewrite Rabs_R0.
  replace (0 ^ 2) with 0 by (simpl; lra). apply sqrt_0.
Qed.

Lemma pd_std_single v : pd_std [v] = None.
Proof. reflexivity. Qed.

Lemma Rdiv_le_one a b : 0 < b -> (a / b <= 1 <-> a <= b).
Proof.
  intros Hb. assert (0 < / b) by (apply Rinv_0_lt_compat; assumption).
  replace a with (a / b * b) at 2 by (field; lra). split; intros; nra.
Qed.

Lemma log10_ratio_le_0 sd m :
  0 < sd -> m <> 0 -> (0 <= - log10 (sd / Rabs m) <-> sd <= Rabs m).
Proof.
  intros Hsd Hm. assert (0 < Rabs m) by (apply Rabs_pos_lt; assumption).
  assert (0 < sd / Rabs m) by (apply Rdiv_lt_0_compat; assumption).
  rewrite <- (Rdiv_le_one sd (Rabs m)) by assumption.
  rewrite <- log10_le_0 by assumption. lra.
Qed.

Lemma log10_double_ratio sd m :
  0 < sd -> m <> 0 ->
  - log10 (2 * sd / Rabs m) = - log10 (sd / Rabs m) - log10 2.
Proof.
  intros Hsd Hm. assert (0 < Rabs m) by (apply Rabs_pos_lt; assumption).
  replace (2 * sd / Rabs m) with (2 * (sd / Rabs m)) by (field; lra).
  rewrite log10_mult; [lra | lra | apply Rdiv_lt_0_compat; assumption].
Qed.

(** ** Groups of one sample *)

(** C1, counterexample.  In gelu/ulpplot.py the standard deviation of a
    group is pandas' [Series.std()]: for the single sample 2 it is NaN, not
    0, and the estimate written for the group is 0, not the ceiling of 53
    bits. *)
Lemma C1_pandas_single_sample_nan :
  pd_std [2] = None /\
  GeluUlpplotStats.sig_digits (np_mean [2]) (pd_std [2]) = Fin 0 /\
  GeluUlpplotStats.sig_digits (np_mean [2]) (pd_std [2]) <> Fin (53 * log10 2).
Proof.
  split; [reflexivity|]. split; [reflexivity|].
  rewrite pd_std_single. cbn. intros [= H]. pose proof log10_2_pos. lra.
Qed.

(** C1, as amended.  In the scripts that aggregate with NumPy
    (gelu/sigfigplot.py, gelu/plot.py, softmax/plot.py) a group of exactly
    one sample has standard deviation 0, and its estimate of significant
    digits is the ceiling [precision_bits * log10 2]. *)
Theorem C1_single_sample_numpy (v prec_b : R) (precision_bits : Z) :
  np_std [v] = 0 /\
  GeluSigfigplot.main_group [v] prec_b = (v, 0, prec_b * log10 2) /\
  SoftmaxPlotStats.group_statistics [v] precision_bits
    = (v, 0, IZR precision_bits * log10 2).
Proof.
  unfold GeluSigfigplot.main_group, SoftmaxPlotStats.group_statistics.
  rewrite np_std_single, np_mean_single.
  unfold GeluSigfigplot.s, SoftmaxPlotStats.sig_digits.
  split; [reflexivity|]. split.
  - case_decide; [reflexivity | contradiction].
  - case_decide as H; [reflexivity|]. exfalso. apply H. right. reflexivity.
Qed.

(** ** Zero dispersion *)

(** C2, counterexample.  gelu/sigfigplot.py tests [sigma == 0] only: for
    mean 0 and the standard deviation 1e-16, below the threshold, it answers
    0 and not the ceiling.  softmax/ulpscript.py has no ceiling: for a
    standard deviation 0 it answers inf. *)
Lemma C2_no_threshold_and_inf :
  GeluSigfigplot.s 0 1e-16 (GeluSigfigplot.prec_dec 53) = 0 /\
  GeluSigfigplot.s 0 1e-16 (GeluSigfigplot.prec_dec 53) <> 53 * log10 2 /\
  UlpscriptStats.sig_digits 0 (Some 0) = Inf.
Proof.
  assert (E : GeluSigfigplot.s 0 1e-16 (GeluSigfigplot.prec_dec 53) = 0).
  { unfold GeluSigfigplot.s. case_decide; [lra|].
    case_decide; [reflexivity | contradiction]. }
  split; [exact E|]. split.
  - rewrite E. pose proof log10_2_pos. lra.
  - unfold UlpscriptStats.sig_digits.
    case_bool_decide; [contradiction|]. reflexivity.
Qed.

(** C2, as amended.  When the standard deviation is 0 or below 1e-15 the
    estimator of softmax/plot.py returns [precision_bits * log10 2] for
    every mean, the mean 0 included: the test on the standard deviation
    comes first.  When it is exactly 0 the estimator of gelu/sigfigplot.py
    returns the ceiling too, and the ULP scripts, which have no ceiling,
    return inf. *)
Theorem C2_std_zero_gives_ceiling (mean std prec_b : R) (precision_bits : Z) :
  std < 1e-15 \/ std = 0 ->
  SoftmaxPlotStats.sig_digits mean std
    (SoftmaxPlotStats.max_sig_digits precision_bits)
    = IZR precision_bits * log10 2
  /\ (std = 0 ->
      GeluSigfigplot.s mean std (GeluSigfigplot.prec_dec prec_b)
        = prec_b * log10 2
      /\ GeluUlpplotStats.sig_digits mean (Some std) = Inf
      /\ UlpscriptStats.sig_digits mean (Some std) = Inf).
Proof.
  intros Hstd. split.
  - unfold SoftmaxPlotStats.sig_digits.
    case_decide; [reflexivity | contradiction].
  - intros ->. unfold GeluSigfigplot.s, GeluUlpplotStats.sig_digits,
      UlpscriptStats.sig_digits.
    repeat split.
    + case_decide; [reflexivity | contradiction].
    + rewrite (bool_decide_eq_false_2 (0 < 0)) by lra.
      rewrite andb_false_r. rewrite bool_decide_eq_true_2; reflexivity.
    + rewrite (bool_decide_eq_false_2 (0 < 0)) by lra.
      rewrite andb_false_r. reflexivity.
Qed.

(** The amended C2 at mean 0, standard deviation 0 and 53 bits. *)
Lemma C2_std_zero_gives_ceiling_witness :
  SoftmaxPlotStats.sig_digits 0 0 (SoftmaxPlotStats.max_sig_digits 53)
    = 53 * log10 2
  /\ GeluSigfigplot.s 0 0 (GeluSigfigplot.prec_dec 53) = 53 * log10 2
  /\ GeluUlpplotStats.sig_digits 0 (Some 0) = Inf
  /\ UlpscriptStats.sig_digits 0 (Some 0) = Inf.
Proof.
  destruct (C2_std_zero_gives_ceiling 0 0 53 53) as [Hplot Hzero].
  - right. reflexivity.
  - split; [exact Hplot | apply Hzero; reflexivity].
Defined.

(** ** Bounds of the estimate *)

(** C3, counterexample.  For mean 1 and standard deviation 10 at 53 bits
    the estimator of softmax/plot.py returns -1: the estimate is negative
    as soon as the dispersion exceeds the mean. *)
Lemma C3_negative_estimate :
  SoftmaxPlotStats.sig_digits 1 10 (SoftmaxPlotStats.max_sig_digits 53) = -1 /\
  ~ (0 <= SoftmaxPlotStats.sig_digits 1 10
            (SoftmaxPlotStats.max_sig_digits 53)).
Proof.
  assert (E : SoftmaxPlotStats.sig_digits 1 10
                (SoftmaxPlotStats.max_sig_digits 53) = -1).
  { unfold SoftmaxPlotStats.sig_digits, SoftmaxPlotStats.max_sig_digits.
    case_decide; [lra|]. case_decide; [lra|].
    rewrite Rabs_R1. replace (10 / 1) with 10 by lra. rewrite log10_10.
    pose proof log10_2_pos. apply Rmin_left. lra. }
  split; [exact E | rewrite E; lra].
Qed.

(** C3, as amended.  For a standard deviation above 0 and a mean other
    than 0 the estimate of softmax/plot.py never exceeds the ceiling
    [precision_bits * log10 2]; with [precision_bits >= 0] it is
    non-negative exactly when the standard deviation is at most [|mean|] (or
    below the threshold 1e-15): there is no lower clamp.  The estimate of
    gelu/ulpplot.py is [-log10 (std / |mean|)] without any bound. *)
Theorem C3_capped_above_not_below (mean std : R) (precision_bits : Z) :
  0 < std -> mean <> 0 ->
  let max_digits := IZR precision_bits * log10 2 in
  let sig := SoftmaxPlotStats.sig_digits mean std
               (SoftmaxPlotStats.max_sig_digits precision_bits) in
  sig <= max_digits
  /\ ((0 <= precision_bits)%Z ->
      (0 <= sig <-> std < 1e-15 \/ std <= Rabs mean))
  /\ GeluUlpplotStats.sig_digits mean (Some std)
       = Fin (- log10 (std / Rabs mean)).
Proof.
  intros Hstd Hmean max_digits sig. subst sig max_digits.
  unfold SoftmaxPlotStats.sig_digits, SoftmaxPlotStats.max_sig_digits.
  pose proof log10_2_pos as H2.
  pose proof (log10_ratio_le_0 std mean Hstd Hmean) as Hr.
  repeat split.
  - case_decide; [lra|]. case_decide; [contradiction|]. apply Rmin_r.
  - intros Hsig. case_decide as Hd.
    + left. lra.
    + case_decide; [contradiction|]. right. apply Hr.
      eapply Rle_trans; [exact Hsig | apply Rmin_l].
  - assert (0 <= IZR precision_bits) by (apply IZR_le; assumption).
    intros Hor. case_decide as Hd; [nra|].
    case_decide; [contradiction|].
    apply Rmin_glb; [|nra]. apply Hr. destruct Hor; [|assumption].
    exfalso. apply Hd. left. assumption.
  - unfold GeluUlpplotStats.sig_digits.
    rewrite !bool_decide_eq_true_2 by assumption. reflexivity.
Qed.

(** The amended C3 at mean 4, standard deviation 1 and 53 bits. *)
Lemma C3_capped_above_not_below_witness :
  SoftmaxPlotStats.sig_digits 4 1 (SoftmaxPlotStats.max_sig_digits 53)
    <= 53 * log10 2
  /\ (0 <= SoftmaxPlotStats.sig_digits 4 1
              (SoftmaxPlotStats.max_sig_digits 53)
      <-> 1 < 1e-15 \/ 1 <= Rabs 4).
Proof.
  destruct (C3_capped_above_not_below 4 1 53) as (Hle & Hge & _);
    [lra | lra |].
  split; [exact Hle | apply Hge; lia].
Defined.

(** ** Doubling the dispersion *)

Lemma log10_inv x : 0 < x -> log10 (/ x) = - log10 x.
Proof.
  intros Hx. unfold log10. rewrite ln_Rinv by assumption.
  field. pose proof ln_10_pos. lra.
Qed.

(** *** [log10 2] is no ratio of integers *)

Lemma pow2_mod5 (n : nat) : (2 ^ n mod 5 <> 0)%nat.
Proof.
  induction n as [|n IH]; [cbn; lia|].
  rewrite Nat.pow_succ_r', <- Nat.Div0.mul_mod_idemp_r.
  pose proof (Nat.mod_upper_bound (2 ^ n) 5 ltac:(lia)) as Hlt.
  destruct (2 ^ n mod 5)%nat as [|[|[|[|[|r]]]]]; cbn; lia.
Qed.

Lemma pow10_mod5 (m : nat) : (0 < m)%nat -> (10 ^ m mod 5 = 0)%nat.
Proof.
  destruct m as [|m]; [lia|]. intros _.
  rewrite Nat.pow_succ_r'.
  replace (10 * 10 ^ m)%nat with (2 * 10 ^ m * 5)%nat by lia.
  apply Nat.Div0.mod_mul.
Qed.

Lemma ln_2_pos : 0 < ln 2.
Proof. rewrite <- ln_1. apply ln_increasing; lra. Qed.

Lemma pow_ln_eq (n m : nat) :
  INR n * ln 2 = INR m * ln 10 -> (2 ^ n = 10 ^ m)%nat.
Proof.
  intros H. apply INR_eq. rewrite !pow_INR.
  replace (INR 2) with 2 by (cbn; lra).
  replace (INR 10) with 10 by (cbn; lra).
  apply ln_inv; [apply pow_lt; lra | apply pow_lt; lra|].
  rewrite !ln_pow by lra. exact H.
Qed.

Lemma log10_2_irrational (p q : Z) :
  (0 < q)%Z -> log10 2 <> IZR p / IZR q.
Proof.
  intros Hq Heq.
  assert (Hq' : 0 < IZR q) by (apply IZR_lt; assumption).
  pose proof ln_10_pos as H10. pose proof ln_2_pos as H2.
  assert (Hmul : IZR q * ln 2 = IZR p * ln 10).
  { unfold log10 in Heq.
    apply (Rmult_eq_compat_r (IZR q * ln 10)) in Heq.
    field_simplify in Heq; lra. }
  assert (Hp : (0 < p)%Z).
  { apply lt_IZR. apply (Rmult_lt_reg_r (ln 10)); [assumption|].
    rewrite Rmult_0_l, <- Hmul. apply Rmult_lt_0_compat; assumption. }
  rewrite <- (Z2Nat.id q), <- (Z2Nat.id p) in Hmul by lia.
  rewrite <- !INR_IZR_INZ in Hmul.
  apply pow_ln_eq in Hmul.
  pose proof (pow2_mod5 (Z.to_nat q)) as Hmod2.
  pose proof (pow10_mod5 (Z.to_nat p) ltac:(lia)) as Hmod10.
  congruence.
Qed.

Lemma log10_2_quarter : 1 / 4 < log10 2.
Proof.
  unfold log10. pose proof ln_10_pos as H10.
  apply (Rmult_lt_reg_r (ln 10)); [assumption|].
  replace (ln 2 / ln 10 * ln 10) with (ln 2) by (field; lra).
  assert (ln 10 < 4 * ln 2); [|lra].
  replace (4 * ln 2) with (ln (2 ^ 4)).
  - apply ln_increasing; lra.
  - rewrite ln_pow by lra. cbn. lra.
Qed.

(** *** The estimates of the doubles 0.3 and 0.6 *)

Lemma double_0_6_twice :
  GeluSigfigplotFloat.double_0_6 = 2 * GeluSigfigplotFloat.double_0_3.
Proof.
  unfold GeluSigfigplotFloat.double_0_6, GeluSigfigplotFloat.double_0_3.
  lra.
Qed.

Lemma float_estimate_0_3 :
  GeluSigfigplotFloat.s Rdiv GeluSigfigplotFloat.math_log10 1
    GeluSigfigplotFloat.double_0_3 GeluSigfigplotFloat.prec_dec_53
  = 2354836522404481 / 4503599627370496.
Proof.
  unfold GeluSigfigplotFloat.s.
  case_decide as H0;
    [unfold GeluSigfigplotFloat.double_0_3 in H0; lra|].
  case_decide; [lra|]. rewrite Rabs_R1.
  replace (GeluSigfigplotFloat.double_0_3 / 1)
    with GeluSigfigplotFloat.double_0_3 by lra.
  unfold GeluSigfigplotFloat.math_log10.
  case_decide; [|contradiction].
  rewrite Rmin_left;
    [lra | unfold GeluSigfigplotFloat.prec_dec_53; lra].
Qed.

Lemma float_estimate_0_6 :
  GeluSigfigplotFloat.s Rdiv GeluSigfigplotFloat.math_log10 1
    (2 * GeluSigfigplotFloat.double_0_3) GeluSigfigplotFloat.prec_dec_53
  = 999117946104833 / 4503599627370496.
Proof.
  rewrite <- double_0_6_twice. unfold GeluSigfigplotFloat.s.
  case_decide as H0;
    [unfold GeluSigfigplotFloat.double_0_6 in H0; lra|].
  case_decide; [lra|]. rewrite Rabs_R1.
  replace (GeluSigfigplotFloat.double_0_6 / 1)
    with GeluSigfigplotFloat.double_0_6 by lra.
  unfold GeluSigfigplotFloat.math_log10.
  case_decide as H3;
    [unfold GeluSigfigplotFloat.double_0_6,
       GeluSigfigplotFloat.double_0_3 in H3; lra|].
  case_decide; [|contradiction].
  rewrite Rmin_left;
    [lra | unfold GeluSigfigplotFloat.prec_dec_53; lra].
Qed.

(** C8, counterexample.  gelu/sigfigplot.py on doubles at mean 1.0 and
    standard deviation 0.3: the division by [abs(1.0)] is exact, so the
    exact division stands for it, and [math.log10] returns
    [-0.5228787452803376] and [-0.22184874961635637].  The estimate for 0.3
    is 0.5228787452803376 and the one for 2 * 0.3 = 0.6 is
    0.22184874961635637, both strictly between 0 and the ceiling.  Their
    difference is not [log10 2], which is no ratio of integers; it is not
    the double [math.log10(2)] either, from which it differs by 2^-54. *)
Lemma C8_doubles_differ_by_rounding :
  let estimate sd :=
    GeluSigfigplotFloat.s Rdiv GeluSigfigplotFloat.math_log10 1 sd
      GeluSigfigplotFloat.prec_dec_53 in
  let sigma := GeluSigfigplotFloat.double_0_3 in
  estimate sigma = 2354836522404481 / 4503599627370496
  /\ estimate (2 * sigma) = 999117946104833 / 4503599627370496
  /\ 0 < estimate sigma < GeluSigfigplotFloat.prec_dec_53
  /\ 0 < estimate (2 * sigma) < GeluSigfigplotFloat.prec_dec_53
  /\ estimate sigma < 53 * log10 2
  /\ estimate (2 * sigma) < 53 * log10 2
  /\ estimate (2 * sigma) <> estimate sigma - log10 2
  /\ estimate sigma - estimate (2 * sigma)
     = GeluSigfigplotFloat.double_log10_2 + 1 / 18014398509481984.
Proof.
  intros estimate sigma. subst estimate sigma. cbn beta.
  rewrite float_estimate_0_3, float_estimate_0_6.
  pose proof log10_2_quarter as Hq.
  unfold GeluSigfigplotFloat.prec_dec_53,
    GeluSigfigplotFloat.double_log10_2.
  repeat split; try lra.
  intros Heq.
  apply (log10_2_irrational 10591551377341 35184372088832); [lia|].
  lra.
Qed.

(** *** Doubling the dispersion, with the rounding *)

(** C8, as amended.  gelu/sigfigplot.py on doubles, for a mean other than
    0 and a standard deviation above 0.  Let [q] be the double that the
    division [sigma / abs(mu)] gives, and let the division of [2 * sigma]
    give exactly [2 * q] (which holds unless a result overflows or is
    subnormal).  When [math.log10] is within [E] of the logarithm at [q]
    and at [2 * q], and the two estimates lie strictly between 0 and the
    ceiling, the estimate for [2 * sigma] is the estimate for [sigma] minus
    [log10 2] up to [2 * E]; it is exactly that when nothing is rounded
    ([E = 0]). *)
Theorem C8_doubling_std_up_to_rounding
    (fdiv : R -> R -> R) (flog10 : R -> R) (E mu sigma prec_dec : R) :
  mu <> 0 -> 0 < sigma ->
  let q := fdiv sigma (Rabs mu) in
  0 < q ->
  fdiv (2 * sigma) (Rabs mu) = 2 * q ->
  Rabs (flog10 q - log10 q) <= E ->
  Rabs (flog10 (2 * q) - log10 (2 * q)) <= E ->
  let estimate sd := GeluSigfigplotFloat.s fdiv flog10 mu sd prec_dec in
  0 < estimate sigma < prec_dec ->
  0 < estimate (2 * sigma) < prec_dec ->
  Rabs (estimate (2 * sigma) - (estimate sigma - log10 2)) <= 2 * E
  /\ (E = 0 -> estimate (2 * sigma) = estimate sigma - log10 2).
Proof.
  intros Hmu Hsigma q Hq Hdiv Herr1 Herr2 estimate.
  subst estimate. cbn beta. unfold GeluSigfigplotFloat.s.
  repeat case_decide; try lra.
  fold q. rewrite Hdiv. intros [_ Hlt1] [_ Hlt2].
  rewrite !Rmin_left in *;
    try (unfold Rmin in Hlt1, Hlt2;
         repeat destruct (Rle_dec _ _); lra).
  assert (Hlog : log10 (2 * q) = log10 2 + log10 q)
    by (apply log10_mult; lra).
  assert (Hbound :
            Rabs (- flog10 (2 * q) - (- flog10 q - log10 2)) <= 2 * E).
  { replace (- flog10 (2 * q) - (- flog10 q - log10 2))
      with ((flog10 q - log10 q) - (flog10 (2 * q) - log10 (2 * q)))
      by lra.
    unfold Rminus at 1.
    eapply Rle_trans; [apply Rabs_triang|]. rewrite Rabs_Ropp. lra. }
  split; [exact Hbound|].
  intros HE. rewrite HE in Hbound.
  replace (2 * 0) with 0 in Hbound by lra.
  assert (Hzero : Rabs (- flog10 (2 * q) - (- flog10 q - log10 2)) = 0).
  { pose proof (Rabs_pos (- flog10 (2 * q) - (- flog10 q - log10 2))).
    lra. }
  revert Hzero. unfold Rabs. destruct (Rcase_abs _); lra.
Qed.

(** A logarithm that is 1/1000 too large at 1/4 and exact elsewhere. *)
Lemma C8_doubling_std_up_to_rounding_witness :
  let flog10 x := if decide (x = 1 / 4) then log10 x + 1 / 1000
                  else log10 x in
  let estimate sd :=
    GeluSigfigplotFloat.s Rdiv flog10 1 sd (53 * log10 2) in
  Rabs (estimate (2 * (1 / 4)) - (estimate (1 / 4) - log10 2))
  <= 2 * (1 / 1000).
Proof.
  intros flog10 estimate.
  pose proof log10_2_quarter as Hq.
  assert (Hquarter : log10 (1 / 4) = - (2 * log10 2)).
  { replace (1 / 4) with (/ (2 * 2)) by lra.
    rewrite log10_inv, log10_mult by lra. lra. }
  assert (Hhalf : log10 (2 * (1 / 4)) = - log10 2).
  { replace (2 * (1 / 4)) with (/ 2) by lra.
    rewrite log10_inv by lra. reflexivity. }
  assert (Hest1 : estimate (1 / 4) = 2 * log10 2 - 1 / 1000).
  { subst estimate flog10. unfold GeluSigfigplotFloat.s. cbn beta.
    case_decide; [lra|]. case_decide; [lra|]. rewrite Rabs_R1.
    replace (1 / 4 / 1) with (1 / 4) by lra.
    case_decide; [|lra]. rewrite Hquarter, Rmin_left; lra. }
  assert (Hest2 : estimate (2 * (1 / 4)) = log10 2).
  { subst estimate flog10. unfold GeluSigfigplotFloat.s. cbn beta.
    case_decide; [lra|]. case_decide; [lra|]. rewrite Rabs_R1.
    replace (2 * (1 / 4) / 1) with (2 * (1 / 4)) by lra.
    case_decide; [lra|]. rewrite Hhalf, Rmin_left; lra. }
  apply (C8_doubling_std_up_to_rounding Rdiv flog10 (1 / 1000) 1 (1 / 4)
           (53 * log10 2)).
  - lra.
  - lra.
  - rewrite Rabs_R1. lra.
  - rewrite Rabs_R1. lra.
  - rewrite Rabs_R1. subst flog10. cbn beta.
    replace (1 / 4 / 1) with (1 / 4) by lra.
    case_decide; [|lra].
    replace (log10 (1 / 4) + 1 / 1000 - log10 (1 / 4)) with (1 / 1000)
      by lra.
    unfold Rabs. destruct (Rcase_abs _); lra.
  - rewrite Rabs_R1. subst flog10. cbn beta.
    replace (2 * (1 / 4 / 1)) with (2 * (1 / 4)) by lra.
    case_decide; [lra|].
    replace (log10 (2 * (1 / 4)) - log10 (2 * (1 / 4))) with 0 by lra.
    rewrite Rabs_R0. lra.
  - change (0 < estimate (1 / 4) < 53 * log10 2). rewrite Hest1. lra.
  - change (0 < estimate (2 * (1 / 4)) < 53 * log10 2).
    rewrite Hest2. lra.
Defined.

(** ** The samples 1 and 3 *)

Lemma np_mean_1_3 : np_mean [1; 3] = 2.
Proof. unfold np_mean. cbn. lra. Qed.

Lemma np_std_1_3 : np_std [1; 3] = 1.
Proof.
  unfold np_std. rewrite np_mean_1_3. unfold np_mean. cbn.
  replace (1 - 2) with (-1) by lra. replace (3 - 2) with 1 by lra.
  rewrite Rabs_R1. replace (Rabs (-1)) with 1
    by (unfold Rabs; destruct (Rcase_abs (-1)); lra).
  replace ((1 * (1 * 1) + (1 * (1 * 1) + 0)) / (1 + 1)) with 1 by lra.
  apply sqrt_1.
Qed.

(** The samples 1 and 3 of one coordinate at 53 bits: mean 2, standard
    deviation 1 and [log10 2] significant digits. *)
Lemma main_group_1_3 :
  GeluSigfigplot.main_group [1; 3] 53 = (2, 1, log10 2).
Proof.
  unfold GeluSigfigplot.main_group. rewrite np_mean_1_3, np_std_1_3.
  unfold GeluSigfigplot.s, GeluSigfigplot.prec_dec.
  case_decide; [lra|]. case_decide; [lra|].
  rewrite (Rabs_pos_eq 2) by lra. replace (1 / 2) with (/ 2) by lra.
  rewrite log10_inv by lra. pose proof log10_2_pos.
  rewrite Rmin_left by lra. f_equal. lra.
Qed.

(** The same law for the estimator of softmax/plot.py. *)
Lemma doubling_std_softmax_plot (mean std : R) (precision_bits : Z) :
  mean <> 0 -> 0 < std ->
  let max_digits := SoftmaxPlotStats.max_sig_digits precision_bits in
  let estimate sd := SoftmaxPlotStats.sig_digits mean sd max_digits in
  0 < estimate std < max_digits ->
  0 < estimate (2 * std) < max_digits ->
  estimate (2 * std) = estimate std - log10 2.
Proof.
  intros Hmean Hstd max_digits estimate. subst estimate. cbn beta.
  unfold SoftmaxPlotStats.sig_digits.
  repeat case_decide; try lra; try contradiction.
  intros [_ Hlt1] [_ Hlt2].
  rewrite !Rmin_left.
  - apply log10_double_ratio; assumption.
  - unfold Rmin in Hlt1. destruct (Rle_dec _ _); lra.
  - unfold Rmin in Hlt2. destruct (Rle_dec _ _); lra.
Qed.

(** ** Relative error *)

(** C5.  The relative error of gelu/plot.py is [|mean - true| / |true|]
    when the true value is not 0; when it is 0, it is [|mean - true|] if
    the mean differs from it and 0 if the mean equals it. *)
Theorem C5_relative_error (mean true_value : R) :
  (true_value <> 0 ->
   GeluPlot.rel_err mean true_value
     = Rabs (mean - true_value) / Rabs true_value)
  /\ (true_value = 0 -> mean <> true_value ->
      GeluPlot.rel_err mean true_value = Rabs (mean - true_value))
  /\ (true_value = 0 -> mean = true_value ->
      GeluPlot.rel_err mean true_value = 0).
Proof.
  unfold GeluPlot.rel_err. repeat split; intros; repeat case_decide;
    congruence.
Qed.

(** C5 at (3, 2), (3, 0) and (0, 0). *)
Lemma C5_relative_error_witness :
  GeluPlot.rel_err 3 2 = Rabs (3 - 2) / Rabs 2
  /\ GeluPlot.rel_err 3 0 = Rabs (3 - 0)
  /\ GeluPlot.rel_err 0 0 = 0.
Proof.
  repeat split.
  - apply (C5_relative_error 3 2). lra.
  - apply (C5_relative_error 3 0); [reflexivity | lra].
  - apply (C5_relative_error 0 0); reflexivity.
Defined.

(** ** Spacing and the error in ULPs *)

Lemma powerRZ_2_pos z : 0 < powerRZ 2 z.
Proof. apply powerRZ_lt. lra. Qed.

Lemma spacing_neg prec emin x : x < 0 -> spacing prec emin x < 0.
Proof.
  intros Hx. unfold spacing. case_decide; [lra|]. case_decide; [|lra].
  pose proof (powerRZ_2_pos (Z.max (exponent x) emin - prec + 1)). lra.
Qed.

Lemma spacing_pos prec emin x : 0 <= x -> 0 < spacing prec emin x.
Proof.
  intros Hx. unfold spacing. case_decide; [apply powerRZ_2_pos|].
  case_decide; [lra|].
  pose proof (powerRZ_2_pos (Z.max (exponent x) emin - prec + 1)). lra.
Qed.

Lemma spacing_nonzero prec emin x : spacing prec emin x <> 0.
Proof.
  destruct (Rlt_dec x 0) as [Hx|Hx].
  - pose proof (spacing_neg prec emin x Hx). lra.
  - pose proof (spacing_pos prec emin x). lra.
Qed.

Lemma gelu_ulp_error_eq mean_val true_val :
  GeluUlpplot.ulp_error mean_val true_val
  = Rabs (mean_val - true_val) / Rabs (spacing64 true_val).
Proof.
  unfold GeluUlpplot.ulp_error. cbn zeta. case_decide as H; [reflexivity|].
  exfalso. revert H. apply Rabs_no_R0, spacing_nonzero.
Qed.

Lemma parallel_sum_ulp_error_negative mean_val true_val :
  true_val < 0 -> ParallelSumUlpscript.ulp_error mean_val true_val = 0.
Proof.
  intros Hx. unfold ParallelSumUlpscript.ulp_error. cbn zeta.
  pose proof (spacing_neg 53 (-1022) true_val Hx). unfold spacing64.
  case_decide; [lra | reflexivity].
Qed.

Lemma exponent_minus_one : exponent (-1) = 0%Z.
Proof.
  unfold exponent. replace (Rabs (-1)) with 1.
  - rewrite ln_1. replace (0 / ln 2) with 0 by (unfold Rdiv; lra).
    apply (ZfloorZ 0).
  - unfold Rabs. destruct (Rcase_abs (-1)); lra.
Qed.

Lemma spacing64_minus_one : spacing64 (-1) = - powerRZ 2 (-52).
Proof.
  unfold spacing64, spacing. case_decide; [lra|]. case_decide; [|lra].
  rewrite exponent_minus_one.
  replace (Z.max 0 (-1022) - 53 + 1)%Z with (-52)%Z by lia. lra.
Qed.

(** C6, the failing input.  For the mean -1/2 and the true value -1 the
    error in ULPs is [|mean - true| / |spacing| = 2^51], which is what
    gelu/ulpplot.py computes; parallel_sum/ulpscript.py keeps the sign of
    [np.spacing] and tests [ulp > 0], so it reports 0. *)
Theorem C6_negative_true_value_reports_zero :
  ParallelSumUlpscript.ulp_error (-1/2) (-1) = 0
  /\ GeluUlpplot.ulp_error (-1/2) (-1) = 2 ^ 51
  /\ Rabs (-1/2 - -1) / Rabs (spacing64 (-1)) = 2 ^ 51.
Proof.
  assert (E : Rabs (-1/2 - -1) / Rabs (spacing64 (-1)) = 2 ^ 51).
  { rewrite spacing64_minus_one, Rabs_Ropp.
    rewrite (Rabs_pos_eq (powerRZ 2 (-52))) by (left; apply powerRZ_2_pos).
    replace (-1/2 - -1) with (/2) by lra. rewrite Rabs_pos_eq by lra.
    change (powerRZ 2 (-52)) with (/ 2 ^ 52).
    assert (0 < 2 ^ 51) by (apply pow_lt; lra).
    replace (2 ^ 52) with (2 * 2 ^ 51) by reflexivity.
    field. }
  split; [apply parallel_sum_ulp_error_negative; lra|].
  split; [rewrite gelu_ulp_error_eq|]; exact E.
Qed.

(** ** The loop over the groups and the reference program *)

(** A list either satisfies a decidable property everywhere or has a first
    element that does not. *)
Lemma first_failure_split {G} (P : G -> Prop) `{!forall g, Decision (P g)}
    (groups : list G) :
  Forall P groups
  \/ exists pre A post,
       groups = pre ++ A :: post /\ Forall P pre /\ ~ P A.
Proof.
  induction groups as [|g groups IH].
  - left. constructor.
  - destruct (decide (P g)) as [Hg|Hg].
    + destruct IH as [IH|(pre & A & post & -> & Hpre & HA)].
      * left. constructor; assumption.
      * right. exists (g :: pre), A, post.
        split; [reflexivity|]. split; [constructor|]; assumption.
    + right. exists [], g, groups. split; [reflexivity|].
      split; [constructor | assumption].
Qed.

Lemma for_each_all_ok {G Row} (body : G -> outcome Row) groups rows written :
  Forall2 (fun g row => body g = Ok row) groups rows ->
  for_each body groups written = (written ++ rows, Ok tt).
Proof.
  intros H. revert written.
  induction H as [|g row groups rows Hg _ IH]; intros written; cbn.
  - rewrite app_nil_r. reflexivity.
  - rewrite Hg, IH, <- app_assoc. reflexivity.
Qed.

Lemma for_each_first_failure {G Row} (body : G -> outcome Row)
    pre failing post rows written :
  Forall2 (fun g row => body g = Ok row) pre rows ->
  (forall row, body failing <> Ok row) ->
  for_each body (pre ++ failing :: post) written
  = (written ++ rows,
     match body failing with
     | Ok _ => Ok tt
     | SysExit status => SysExit status
     | Raise e => Raise e
     end).
Proof.
  intros H Hfail. revert written.
  induction H as [|g row groups rows Hg _ IH]; intros written; cbn.
  - rewrite app_nil_r. destruct (body failing) as [row| |] eqn:E;
      [exfalso; eapply Hfail; reflexivity | reflexivity | reflexivity].
  - rewrite Hg, IH, <- app_assoc. reflexivity.
Qed.

Lemma gelu_get_true_value_ok x c_program :
  oracle_ok (c_program x) ->
  exists v, stdout_float (c_program x) = Some v
            /\ GeluUlpplot.get_true_value x c_program = Ok v.
Proof.
  intros [Hrc [v Hv]]. exists v. split; [assumption|].
  unfold GeluUlpplot.get_true_value, subprocess_run_check, float_of_stdout.
  case_decide; [|contradiction]. cbn. rewrite Hv. reflexivity.
Qed.

Lemma gelu_get_true_value_fail x c_program :
  ~ oracle_ok (c_program x) ->
  GeluUlpplot.get_true_value x c_program = SysExit 1.
Proof.
  intros Hno.
  unfold GeluUlpplot.get_true_value, subprocess_run_check, float_of_stdout.
  case_decide as Hrc; cbn; [|reflexivity].
  destruct (stdout_float (c_program x)) as [v|] eqn:Hv; [|reflexivity].
  exfalso. apply Hno. split; [assumption | rewrite Hv; eauto].
Qed.

Lemma gelu_process_group_ok c_program x mca_results :
  oracle_ok (c_program x) ->
  exists row, GeluUlpplot.process_group c_program (x, mca_results) = Ok row
              /\ GeluUlpplot.row_x row = x
              /\ stdout_float (c_program x)
                 = Some (GeluUlpplot.row_true_value row).
Proof.
  intros Hok. destruct (gelu_get_true_value_ok _ _ Hok) as (v & Hv & E).
  unfold GeluUlpplot.process_group, GeluUlpplotStats.group_statistics.
  rewrite E. cbn. eexists. split; [reflexivity|]. cbn. auto.
Qed.

Lemma gelu_process_group_fail c_program x mca_results :
  ~ oracle_ok (c_program x) ->
  GeluUlpplot.process_group c_program (x, mca_results) = SysExit 1.
Proof.
  intros Hno.
  unfold GeluUlpplot.process_group, GeluUlpplotStats.group_statistics.
  rewrite (gelu_get_true_value_fail _ _ Hno). reflexivity.
Qed.

Lemma gelu_rows_of_ok c_program (groups : list (R * list R)) :
  Forall (fun g => oracle_ok (c_program g.1)) groups ->
  exists rows,
    Forall2 (fun g row => GeluUlpplot.process_group c_program g = Ok row)
            groups rows
    /\ GeluUlpplot.row_x <$> rows = groups.*1.
Proof.
  induction 1 as [|[x mca] groups Hg _ (rows & IH & Hx)].
  - exists []. split; [constructor | reflexivity].
  - destruct (gelu_process_group_ok c_program x mca Hg) as (row & E & Ex & _).
    exists (row :: rows). split; [constructor; assumption|].
    cbn. rewrite Ex, Hx. reflexivity.
Qed.

Lemma softmax_process_group_ok softmax_ref2 x0 x1 x2 mca_results :
  oracle_ok (softmax_ref2 (x0, x1, x2)) ->
  exists row,
    SoftmaxUlpscript.process_group softmax_ref2 (x0, x1, x2, mca_results)
    = Ok row.
Proof.
  intros [Hrc [v Hv]].
  unfold SoftmaxUlpscript.process_group, SoftmaxUlpscript.get_true_value,
    subprocess_run_check, float_of_stdout.
  case_decide; [|contradiction]. cbn. rewrite Hv. cbn. eauto.
Qed.

Lemma softmax_process_group_fail softmax_ref2 x0 x1 x2 mca_results :
  ~ oracle_ok (softmax_ref2 (x0, x1, x2)) ->
  exists e,
    SoftmaxUlpscript.process_group softmax_ref2 (x0, x1, x2, mca_results)
    = Raise e.
Proof.
  intros Hno.
  unfold SoftmaxUlpscript.process_group, SoftmaxUlpscript.get_true_value,
    subprocess_run_check, float_of_stdout.
  case_decide as Hrc; cbn; [|eauto].
  destruct (stdout_float _) as [v|] eqn:Hv; cbn; [|eauto].
  exfalso. apply Hno. split; [assumption | rewrite Hv; eauto].
Qed.

Lemma softmax_rows_of_ok softmax_ref2 (groups : list (R * R * R * list R)) :
  Forall (fun g => oracle_ok (softmax_ref2 g.1)) groups ->
  exists rows,
    Forall2 (fun g row =>
               SoftmaxUlpscript.process_group softmax_ref2 g = Ok row)
            groups rows.
Proof.
  induction 1 as [|[[[x0 x1] x2] mca] groups Hg _ (rows & IH)].
  - exists []. constructor.
  - destruct (softmax_process_group_ok softmax_ref2 x0 x1 x2 mca Hg)
      as (row & E).
    exists (row :: rows). constructor; assumption.
Qed.

(** softmax/ulpscript.py catches nothing: the first call that fails ends
    the script with the exception, after the rows of the groups before. *)
Lemma softmax_first_oracle_failure_raises softmax_ref2 pre A post :
  Forall (fun g => oracle_ok (softmax_ref2 g.1)) pre ->
  ~ oracle_ok (softmax_ref2 A.1) ->
  exists rows e,
    SoftmaxUlpscript.main_loop softmax_ref2 (pre ++ A :: post)
    = (rows, Raise e)
    /\ length rows = length pre.
Proof.
  intros Hpre HA.
  destruct (softmax_rows_of_ok softmax_ref2 pre Hpre) as (rows & Hrows).
  destruct A as [[[x0 x1] x2] mca].
  destruct (softmax_process_group_fail softmax_ref2 x0 x1 x2 mca HA)
    as (e & E).
  exists rows, e. split.
  - unfold SoftmaxUlpscript.main_loop.
    rewrite (for_each_first_failure _ pre _ post rows []); [|assumption|].
    + rewrite E. reflexivity.
    + rewrite E. discriminate.
  - symmetry. eapply Forall2_length. eassumption.
Qed.

(** C4, counterexample.  The reference program fails on the coordinate 1
    and answers on the coordinate 2: the run of gelu/ulpplot.py ends with
    exit status 1 at the first group, and the coordinate 2 gets no row. *)
Lemma C4_failure_of_A_aborts_B :
  oracle_ok (failing_at_one 2)
  /\ ~ oracle_ok (failing_at_one 1)
  /\ GeluUlpplot.main_loop failing_at_one [(1, [2; 2]); (2, [4; 4])]
     = ([], SysExit 1).
Proof.
  unfold oracle_ok, failing_at_one. repeat split.
  - case_decide; [lra | reflexivity].
  - case_decide; [lra | cbn; eauto].
  - case_decide; [|contradiction]. cbn. intros [[=] _].
  - unfold GeluUlpplot.main_loop. cbn [for_each].
    rewrite gelu_process_group_fail; [reflexivity|].
    unfold oracle_ok, failing_at_one. case_decide; [|contradiction].
    cbn. intros [[=] _].
Qed.

(** C4, as amended.  The run of gelu/ulpplot.py completes, with one row per
    coordinate, exactly when the reference program answers on every
    coordinate.
    When it fails on a coordinate (exit status other than 0, or output that
    is not a float) after answering on the ones before, the run ends there
    with exit status 1: the rows written are those of the coordinates
    before, and no later coordinate is processed. *)
Theorem C4_first_oracle_failure_ends_run
    (c_program : R -> CompletedProcess) (grouped : list (R * list R)) :
  ((exists rows, GeluUlpplot.main_loop c_program grouped = (rows, Ok tt))
   <-> Forall (fun g => oracle_ok (c_program g.1)) grouped)
  /\ (Forall (fun g => oracle_ok (c_program g.1)) grouped ->
      exists rows,
        GeluUlpplot.main_loop c_program grouped = (rows, Ok tt)
        /\ GeluUlpplot.row_x <$> rows = grouped.*1)
  /\ (forall pre A post,
        grouped = pre ++ A :: post ->
        Forall (fun g => oracle_ok (c_program g.1)) pre ->
        ~ oracle_ok (c_program A.1) ->
        exists rows,
          GeluUlpplot.main_loop c_program grouped = (rows, SysExit 1)
          /\ GeluUlpplot.row_x <$> rows = pre.*1).
Proof.
  assert (Hcomplete :
    Forall (fun g => oracle_ok (c_program g.1)) grouped ->
    exists rows,
      GeluUlpplot.main_loop c_program grouped = (rows, Ok tt)
      /\ GeluUlpplot.row_x <$> rows = grouped.*1).
  { intros Hall.
    destruct (gelu_rows_of_ok c_program grouped Hall) as (rows & Hrows & Hx).
    exists rows. split; [|assumption]. unfold GeluUlpplot.main_loop.
    rewrite (for_each_all_ok _ _ rows); [reflexivity | assumption]. }
  assert (Habort : forall pre A post,
    grouped = pre ++ A :: post ->
    Forall (fun g => oracle_ok (c_program g.1)) pre ->
    ~ oracle_ok (c_program A.1) ->
    exists rows,
      GeluUlpplot.main_loop c_program grouped = (rows, SysExit 1)
      /\ GeluUlpplot.row_x <$> rows = pre.*1).
  { intros pre A post -> Hpre HA.
    destruct (gelu_rows_of_ok c_program pre Hpre) as (rows & Hrows & Hx).
    exists rows. split; [|assumption]. unfold GeluUlpplot.main_loop.
    destruct A as [x mca].
    pose proof (gelu_process_group_fail c_program x mca HA) as E.
    rewrite (for_each_first_failure _ pre (x, mca) post rows []);
      [|assumption|].
    - rewrite E. reflexivity.
    - rewrite E. discriminate. }
  split; [|split; assumption]. split.
  - intros [rows Hrun].
    destruct (first_failure_split (fun g => oracle_ok (c_program g.1)) grouped)
      as [Hall|(pre & A & post & Heq & Hpre & HA)]; [assumption|].
    destruct (Habort pre A post Heq Hpre HA) as (rows' & Hrun' & _).
    rewrite Hrun in Hrun'. discriminate.
  - intros Hall. destruct (Hcomplete Hall) as (rows & Hrun & _). eauto.
Qed.

(** The amended C4 on the groups 2, 1, 3 with a program that fails on 1. *)
Lemma C4_first_oracle_failure_ends_run_witness :
  exists rows,
    GeluUlpplot.main_loop failing_at_one
      [(2, [4; 4]); (1, [2; 2]); (3, [6; 6])]
    = (rows, SysExit 1)
    /\ GeluUlpplot.row_x <$> rows = [2].
Proof.
  apply (C4_first_oracle_failure_ends_run failing_at_one
           [(2, [4; 4]); (1, [2; 2]); (3, [6; 6])])
    with (pre := [(2, [4; 4])]) (A := (1, [2; 2])) (post := [(3, [6; 6])]).
  - reflexivity.
  - repeat constructor; unfold failing_at_one; cbn;
      case_decide; try lra; cbn; eauto.
  - unfold oracle_ok, failing_at_one. cbn. case_decide; [|contradiction].
    cbn. intros [[=] _].
Defined.

(** ** Loading with pandas *)

Lemma coerce_dropna_None r :
  PandasLoad.coerce_dropna r = None <-> malformed r.
Proof.
  unfold malformed, PandasLoad.coerce_dropna.
  destruct (PandasLoad.raw_i r), (PandasLoad.to_numeric (PandasLoad.raw_x r)),
    (PandasLoad.to_numeric (PandasLoad.raw_result r));
    intuition congruence.
Qed.

Lemma dropna_malformed df1 r df2 :
  malformed r ->
  PandasLoad.dropna (df1 ++ r :: df2) = PandasLoad.dropna (df1 ++ df2).
Proof.
  intros H%coerce_dropna_None. unfold PandasLoad.dropna.
  rewrite !omap_app. cbn. rewrite H. reflexivity.
Qed.

Lemma dropna_nil df :
  PandasLoad.dropna df = [] <-> Forall malformed df.
Proof.
  unfold PandasLoad.dropna. induction df as [|r df IH]; cbn.
  - split; [constructor | reflexivity].
  - destruct (PandasLoad.coerce_dropna r) eqn:E.
    + split; [discriminate|]. intros H. inversion H as [|? ? Hr _]; subst.
      apply coerce_dropna_None in Hr. congruence.
    + rewrite IH. split.
      * intros H. constructor; [apply coerce_dropna_None|]; assumption.
      * intros H. inversion H; assumption.
Qed.

(** *** Reading the file *)

Lemma filter_nonblank_app (l1 l2 : list (list PandasLoad.cell)) :
  List.filter PandasLoad.nonblank (l1 ++ l2)
  = List.filter PandasLoad.nonblank l1 ++ List.filter PandasLoad.nonblank l2.
Proof. apply List.filter_app. Qed.

(** What [read_csv] does with the lines after a first line [first] that
    has a field. *)
Lemma read_csv_first first rest :
  first <> [] ->
  let width := Nat.max (length first) 3 in
  let lines := first :: List.filter PandasLoad.nonblank rest in
  PandasLoad.read_csv (first :: rest)
  = if existsb (fun fields => (width <? length fields)%nat) lines
    then Raise ParserError
    else Ok (PandasLoad.row_of_fields (width - 3) <$> lines).
Proof.
  intros Hfirst. unfold PandasLoad.read_csv.
  destruct first as [|c first]; [contradiction|]. reflexivity.
Qed.

Lemma existsb_too_long width (lines : list (list PandasLoad.cell)) :
  existsb (fun fields => (width <? length fields)%nat) lines = true
  <-> Exists (fun fields => (width < length fields)%nat) lines.
Proof.
  rewrite existsb_exists, Exists_exists. split.
  - intros (l & Hin & Hlt). exists l. split.
    + apply list_elem_of_In. assumption.
    + apply Nat.ltb_lt. assumption.
  - intros (l & Hin & Hlt). exists l. split.
    + apply list_elem_of_In. assumption.
    + apply Nat.ltb_lt. assumption.
Qed.

Lemma Exists_filter_nonblank width (lines : list (list PandasLoad.cell)) :
  Exists (fun fields => (width < length fields)%nat)
    (List.filter PandasLoad.nonblank lines)
  <-> Exists (fun fields => (width < length fields)%nat) lines.
Proof.
  induction lines as [|l lines IH]; [reflexivity|].
  cbn. destruct l as [|c l]; cbn.
  - rewrite IH, Exists_cons. cbn. split; [auto|]. intros [H|H]; [lia|auto].
  - rewrite !Exists_cons, IH. reflexivity.
Qed.

Lemma row_of_blank_malformed leading_cols :
  malformed (PandasLoad.row_of_fields leading_cols []).
Proof. left. reflexivity. Qed.

Lemma dropna_rows_filter_nonblank leading_cols
    (lines : list (list PandasLoad.cell)) :
  PandasLoad.dropna
    (PandasLoad.row_of_fields leading_cols
       <$> List.filter PandasLoad.nonblank lines)
  = PandasLoad.dropna (PandasLoad.row_of_fields leading_cols <$> lines).
Proof.
  induction lines as [|l lines IH]; [reflexivity|].
  destruct l as [|c l].
  - cbn [List.filter PandasLoad.nonblank]. rewrite IH, fmap_cons.
    symmetry. apply (dropna_malformed []). apply row_of_blank_malformed.
  - cbn [List.filter PandasLoad.nonblank]. rewrite !fmap_cons.
    unfold PandasLoad.dropna in *.
    match goal with
    | |- omap ?f (?r :: ?l1) = omap ?f (?r :: ?l2) =>
        change (omap f ([r] ++ l1) = omap f ([r] ++ l2))
    end.
    rewrite !omap_app. f_equal. exact IH.
Qed.

Lemma dropna_cons r df :
  PandasLoad.dropna (r :: df) = PandasLoad.dropna [r] ++ PandasLoad.dropna df.
Proof. unfold PandasLoad.dropna. apply (omap_app _ [r]). Qed.

(** The two loaders on a file whose first line has a field: a line that
    is too long is fatal, and otherwise the frame has one row per line. *)
Lemma load_file_first first rest :
  first <> [] ->
  let width := Nat.max (length first) 3 in
  let rows := PandasLoad.row_of_fields (width - 3) <$> first :: rest in
  (Exists (fun fields => (width < length fields)%nat) rest ->
   PandasLoad.load_file (first :: rest) = SysExit 1
   /\ PandasLoad.load_file_unchecked (first :: rest) = Raise ParserError)
  /\ (~ Exists (fun fields => (width < length fields)%nat) rest ->
      PandasLoad.load_file (first :: rest) = PandasLoad.load rows
      /\ PandasLoad.load_file_unchecked (first :: rest)
         = PandasLoad.load_unchecked rows).
Proof.
  intros Hfirst width rows.
  unfold PandasLoad.load_file, PandasLoad.load_file_unchecked.
  rewrite (read_csv_first first rest Hfirst). cbn zeta. fold width.
  destruct (existsb _ _) eqn:E.
  - apply existsb_too_long in E. split; [intros _; split; reflexivity|].
    intros Hno. exfalso. apply Hno.
    apply Exists_cons in E as [E|E]; [subst width; lia|].
    apply Exists_filter_nonblank. assumption.
  - split.
    + intros Hex. exfalso.
      assert (existsb (fun fields => (width <? length fields)%nat)
                (first :: List.filter PandasLoad.nonblank rest) = true)
        as Ht; [|congruence].
      apply existsb_too_long. right. apply Exists_filter_nonblank.
      assumption.
    + intros _. subst rows. rewrite fmap_cons.
      cbn [mbind outcome_bind].
      unfold PandasLoad.load, PandasLoad.load_unchecked.
      rewrite (dropna_cons _ (_ <$> List.filter PandasLoad.nonblank rest)).
      rewrite dropna_rows_filter_nonblank, <- dropna_cons.
      rewrite fmap_cons. split; reflexivity.
Qed.




(** ** The square grid of harmonic/heatmap.py *)

Lemma sqrt_square_iff N :
  (Nat.sqrt N * Nat.sqrt N = N <-> exists n, n * n = N)%nat.
Proof.
  split.
  - intros H. exists (Nat.sqrt N). exact H.
  - intros [n <-]. rewrite Nat.sqrt_square. reflexivity.
Qed.

Lemma err_grid_error errors :
  HarmonicHeatmap.err_grid errors = Raise ValueError
  <-> ~ exists n, (n * n)%nat = length errors.
Proof.
  unfold HarmonicHeatmap.err_grid. cbn zeta.
  rewrite <- sqrt_square_iff. case_decide as H.
  - split; [intros _; exact H | reflexivity].
  - split; [discriminate|]. intros Hn. exfalso. apply Hn.
    destruct (decide ((Nat.sqrt (length errors)
                       * Nat.sqrt (length errors))%nat = length errors));
      [assumption | contradiction].
Qed.

Lemma reshape_T_cell side (values : list R) row col :
  (row < side)%nat -> (col < side)%nat -> length values = (side * side)%nat ->
  exists v, HarmonicHeatmap.reshape_T side values !! row ≫= (.!! col) = Some v
            /\ values !! (col * side + row)%nat = Some v.
Proof.
  intros Hrow Hcol Hlen.
  assert (Hidx : (col * side + row < length values)%nat) by nia.
  destruct (lookup_lt_is_Some_2 values _ Hidx) as [v Hv].
  exists v. split; [|assumption].
  unfold HarmonicHeatmap.reshape_T.
  rewrite list_lookup_fmap, lookup_seq_lt by assumption. cbn.
  rewrite list_lookup_fmap, lookup_seq_lt by assumption. cbn.
  f_equal. apply list_lookup_total_correct. assumption.
Qed.

(** ** Statistics and heat map of softmax/plot.py *)

Lemma elem_of_insert_unique v x sorted :
  x ∈ SoftmaxPlot.insert_unique v sorted <-> x = v \/ x ∈ sorted.
Proof.
  induction sorted as [|w rest IH]; cbn.
  - rewrite list_elem_of_singleton, elem_of_nil. tauto.
  - repeat case_decide; subst; rewrite ?elem_of_cons, ?IH; intuition.
Qed.

Lemma elem_of_np_unique x values :
  x ∈ SoftmaxPlot.np_unique values <-> x ∈ values.
Proof.
  unfold SoftmaxPlot.np_unique. induction values as [|v values IH]; cbn.
  - reflexivity.
  - rewrite elem_of_insert_unique, elem_of_cons, IH. reflexivity.
Qed.

Lemma compute_statistics_coordinates data precision_bits u0 u1 :
  (exists s, s ∈ SoftmaxPlot.compute_statistics data precision_bits
             /\ SoftmaxPlot.stat_x0 s = u0 /\ SoftmaxPlot.stat_x1 s = u1)
  <-> (exists r, r ∈ data
                 /\ SoftmaxPlot.x0 r = u0 /\ SoftmaxPlot.x1 r = u1).
Proof.
  unfold SoftmaxPlot.compute_statistics. split.
  - intros (s & Hs & <- & <-).
    apply list_elem_of_bind in Hs as (v0 & Hs & _).
    apply list_elem_of_bind in Hs as (v1 & Hs & _).
    destruct (filter _ data) as [|r rest] eqn:E; cbn in Hs.
    + apply elem_of_nil in Hs. contradiction.
    + apply list_elem_of_singleton in Hs. subst s. cbn.
      assert (Hr : r ∈ filter (fun r => SoftmaxPlot.x0 r = v0
                                  /\ SoftmaxPlot.x1 r = v1) data)
        by (rewrite E; left).
      apply list_elem_of_filter in Hr as [[? ?] ?]. eauto.
  - intros (r & Hr & <- & <-).
    destruct (filter (fun r' => SoftmaxPlot.x0 r' = SoftmaxPlot.x0 r
                         /\ SoftmaxPlot.x1 r' = SoftmaxPlot.x1 r) data)
      as [|r' rest] eqn:E.
    + assert (Hin : r ∈ filter (fun r' => SoftmaxPlot.x0 r' = SoftmaxPlot.x0 r
                         /\ SoftmaxPlot.x1 r' = SoftmaxPlot.x1 r) data)
        by (apply list_elem_of_filter; auto).
      rewrite E in Hin. apply elem_of_nil in Hin. contradiction.
    + eexists. split.
      * apply list_elem_of_bind. exists (SoftmaxPlot.x0 r). split.
        -- apply list_elem_of_bind. exists (SoftmaxPlot.x1 r). split.
           ++ rewrite E. cbn. apply list_elem_of_singleton. reflexivity.
           ++ apply elem_of_np_unique, list_elem_of_fmap. eauto.
        -- apply elem_of_np_unique, list_elem_of_fmap. eauto.
      * cbn. auto.
Qed.

(** Evaluation on concrete tables: each decision on reals in the goal is
    settled by [lra]. *)
Ltac absurd_real :=
  exfalso;
  match goal with
  | H : ¬ _ |- _ => apply H; repeat split; (lra || reflexivity)
  | H : _ /\ _ |- _ => destruct H; lra
  | _ => lra
  end.

Ltac decide_reals :=
  repeat (match goal with
          | |- context [decide ?P] => destruct (decide P)
          end; try solve [absurd_real]).

Ltac eval_stats :=
  repeat first
    [ progress (cbn -[np_mean np_std SoftmaxPlotStats.sig_digits filter])
    | rewrite filter_cons
    | rewrite filter_nil
    | progress decide_reals ].

(** The statistics of [three_of_four]: one entry per pair that has a row. *)
Lemma three_of_four_statistics :
  SoftmaxPlot.compute_statistics three_of_four 53
  = (fun c : R * R =>
       {| SoftmaxPlot.stat_x0 := c.1; SoftmaxPlot.stat_x1 := c.2;
          SoftmaxPlot.stat_mean := 7; SoftmaxPlot.stat_std := 0;
          SoftmaxPlot.stat_min := 7; SoftmaxPlot.stat_max := 7;
          SoftmaxPlot.stat_count := 1;
          SoftmaxPlot.stat_sig_digits := 53 * log10 2 |})
      <$> [ (0, 0); (0, 1); (1, 0) ].
Proof.
  unfold SoftmaxPlot.compute_statistics, three_of_four, SoftmaxPlot.np_unique.
  eval_stats.
  rewrite !np_std_single, !np_mean_single.
  unfold SoftmaxPlotStats.sig_digits, SoftmaxPlotStats.max_sig_digits.
  decide_reals. reflexivity.
Qed.

(** C9, counterexample.  The table [three_of_four] has the unique values 0
    and 1 for both inputs and no row for the pair (1, 1).  The statistics
    of softmax/plot.py hold three entries, and the heat map is built
    without any error: the cell of the missing pair keeps the 0 of
    [np.zeros]. *)
Lemma C9_missing_combination_is_passed_over :
  ((1, 1) ∉ ((fun r => (SoftmaxPlot.x0 r, SoftmaxPlot.x1 r))
               <$> three_of_four))
  /\ length (SoftmaxPlot.compute_statistics three_of_four 53) = 3%nat
  /\ SoftmaxPlot.sig_digits_matrix
       (SoftmaxPlot.compute_statistics three_of_four 53)
     = [ [53 * log10 2; 53 * log10 2]; [53 * log10 2; 0] ].
Proof.
  rewrite three_of_four_statistics. repeat split.
  - cbn. rewrite !elem_of_cons, elem_of_nil.
    intros [H|[H|[H|[]]]]; inversion H; lra.
  - unfold SoftmaxPlot.sig_digits_matrix, SoftmaxPlot.np_unique.
    repeat first [ progress cbn | progress decide_reals ]. reflexivity.
Qed.

(** C9, as amended.  harmonic/heatmap.py raises its error exactly when the
    number of values is not a perfect square: 16 values make a 4 x 4 grid
    whose every cell holds a value of the data, and 15 values raise the
    error.  softmax/plot.py raises nothing: its statistics have an entry
    for exactly the pairs of coordinates that have a row, and a pair
    without a row is passed over. *)
Theorem C9_only_the_count_is_checked :
  (forall errors : list R,
     HarmonicHeatmap.err_grid errors = Raise ValueError
     <-> ~ exists n, (n * n)%nat = length errors)
  /\ (forall errors : list R,
       length errors = 16%nat ->
       exists grid,
         HarmonicHeatmap.err_grid errors = Ok grid
         /\ forall row col, (row < 4)%nat -> (col < 4)%nat ->
              exists v, grid !! row ≫= (.!! col) = Some v
                        /\ errors !! (col * 4 + row)%nat = Some v)
  /\ (forall errors : list R,
       length errors = 15%nat ->
       HarmonicHeatmap.err_grid errors = Raise ValueError)
  /\ (forall data precision_bits u0 u1,
       (exists s, s ∈ SoftmaxPlot.compute_statistics data precision_bits
                  /\ SoftmaxPlot.stat_x0 s = u0
                  /\ SoftmaxPlot.stat_x1 s = u1)
       <-> (exists r, r ∈ data
                      /\ SoftmaxPlot.x0 r = u0 /\ SoftmaxPlot.x1 r = u1)).
Proof.
  split; [exact err_grid_error|]. split; [|split].
  - intros errors Hlen. exists (HarmonicHeatmap.reshape_T 4 errors). split.
    + unfold HarmonicHeatmap.err_grid. rewrite Hlen. reflexivity.
    + intros row col Hrow Hcol. apply reshape_T_cell; assumption.
  - intros errors Hlen. unfold HarmonicHeatmap.err_grid. rewrite Hlen.
    reflexivity.
  - exact compute_statistics_coordinates.
Qed.

(** The amended C9 on 16 and on 15 values. *)
Lemma C9_only_the_count_is_checked_witness :
  (exists grid,
     HarmonicHeatmap.err_grid (replicate 16 1) = Ok grid
     /\ forall row col, (row < 4)%nat -> (col < 4)%nat ->
          exists v, grid !! row ≫= (.!! col) = Some v
                    /\ replicate 16 1 !! (col * 4 + row)%nat = Some v)
  /\ HarmonicHeatmap.err_grid (replicate 15 1) = Raise ValueError.
Proof.
  split.
  - apply C9_only_the_count_is_checked. reflexivity.
  - apply C9_only_the_count_is_checked. reflexivity.
Defined.

(** ** The coordinate filter *)

Section Filter.
Context (data : SoftmaxPlot.ndarray).
Let names := SoftmaxPlot.dtype_names data.
Let rows := SoftmaxPlot.records data.

Lemma zip_with_andb_fmap {A} (g f : A -> bool) (l : list A) :
  zip_with andb (g <$> l) (f <$> l) = (fun r => g r && f r) <$> l.
Proof. induction l as [|r l IH]; cbn; [|rewrite IH]; reflexivity. Qed.

Lemma mask_step_fmap (g : gmap string R -> bool) item :
  SoftmaxPlot.mask_step data (g <$> rows) item
  = (fun r => g r && bool_decide (item_matches names r item)) <$> rows.
Proof.
  destruct item as [var val]. unfold SoftmaxPlot.mask_step, item_matches.
  cbn. fold names rows. case_decide as Hin.
  - rewrite zip_with_andb_fmap. apply list_fmap_ext. intros _ r _. cbn beta.
    f_equal. apply bool_decide_ext. tauto.
  - apply list_fmap_ext. intros _ r _. cbn beta.
    rewrite bool_decide_eq_true_2 by tauto. rewrite andb_true_r.
    reflexivity.
Qed.

Lemma foldl_mask_step (g : gmap string R -> bool) items :
  foldl (SoftmaxPlot.mask_step data) (g <$> rows) items
  = (fun r => g r && bool_decide (Forall (item_matches names r) items))
      <$> rows.
Proof.
  revert g. induction items as [|item items IH]; intros g; cbn.
  - apply list_fmap_ext. intros _ r _. cbn. rewrite andb_true_r.
    reflexivity.
  - rewrite mask_step_fmap, IH. apply list_fmap_ext. intros _ r _. cbn beta.
    rewrite <- andb_assoc. f_equal.
    rewrite <- bool_decide_and. apply bool_decide_ext.
    rewrite Forall_cons. reflexivity.
Qed.

Lemma select_cons b mask (r : gmap string R) l :
  SoftmaxPlot.select (b :: mask) (r :: l)
  = (if b then [r] else []) ++ SoftmaxPlot.select mask l.
Proof. reflexivity. Qed.

Lemma select_fmap (g : gmap string R -> bool) (l : list (gmap string R)) :
  SoftmaxPlot.select (g <$> l) l = filter (fun r => g r = true) l.
Proof.
  induction l as [|r l IH]; [reflexivity|].
  rewrite fmap_cons, select_cons, filter_cons, IH.
  destruct (g r); case_decide; try congruence; reflexivity.
Qed.

Lemma replicate_true_fmap {A} (l : list A) :
  replicate (length l) true = (fun _ => true) <$> l.
Proof. induction l; cbn; [|f_equal]; auto. Qed.

Lemma Forall_items_row_matches filters r :
  Forall (item_matches names r) (map_to_list filters)
  <-> row_matches names filters r.
Proof.
  unfold row_matches. rewrite Forall_forall. split.
  - intros H var val Hlook. apply (H (var, val)).
    apply elem_of_map_to_list. assumption.
  - intros H [var val] Hin%elem_of_map_to_list. exact (H var val Hin).
Qed.

Lemma filter_data_records pairs :
  SoftmaxPlot.records (SoftmaxPlot.filter_data data pairs)
  = filter (row_matches names (SoftmaxPlot.parse_filters pairs)) rows.
Proof.
  destruct pairs as [|p pairs].
  - cbn. fold rows. symmetry. induction rows as [|r l IH]; [reflexivity|].
    rewrite filter_cons_True, IH; [reflexivity|].
    intros var val Hlook. cbn in Hlook. rewrite lookup_empty in Hlook.
    discriminate.
  - unfold SoftmaxPlot.filter_data. cbn [SoftmaxPlot.records]. fold rows.
    rewrite replicate_true_fmap, foldl_mask_step, select_fmap.
    apply list_filter_iff. intros r. cbn [andb].
    rewrite bool_decide_eq_true. apply Forall_items_row_matches.
Qed.
End Filter.

Lemma foldl_insert_lookup (m : gmap string R) (pairs : list (string * R))
    (var : string) :
  foldl (fun filters (p : string * R) => <[p.1 := p.2]> filters) m pairs
    !! var
  = match SoftmaxPlot.parse_filters pairs !! var with
    | Some val => Some val
    | None => m !! var
    end.
Proof.
  unfold SoftmaxPlot.parse_filters.
  revert m. induction pairs as [|[k v] pairs IH] using rev_ind; intros m.
  - cbn. rewrite lookup_empty. reflexivity.
  - rewrite !foldl_snoc. cbn [fst snd].
    destruct (decide (k = var)) as [->|Hne].
    + rewrite !lookup_insert_eq. reflexivity.
    + rewrite !lookup_insert_ne by assumption. apply IH.
Qed.

Lemma parse_filters_cons_lookup k v (pairs : list (string * R)) var :
  SoftmaxPlot.parse_filters ((k, v) :: pairs) !! var
  = match SoftmaxPlot.parse_filters pairs !! var with
    | Some val => Some val
    | None => if decide (k = var) then Some v else None
    end.
Proof.
  unfold SoftmaxPlot.parse_filters at 1. cbn [foldl fst snd].
  rewrite foldl_insert_lookup.
  destruct (SoftmaxPlot.parse_filters pairs !! var); [reflexivity|].
  case_decide as Hk.
  - subst. apply lookup_insert_eq.
  - rewrite lookup_insert_ne by assumption. apply lookup_empty.
Qed.

(** The dictionary [filters] holds, for each variable, the value of the
    last pair of the string that names it. *)
Lemma parse_filters_filter_value (pairs : list (string * R)) var :
  SoftmaxPlot.parse_filters pairs !! var = filter_value pairs var.
Proof.
  induction pairs as [|[k v] pairs IH].
  - apply lookup_empty.
  - rewrite parse_filters_cons_lookup, IH. reflexivity.
Qed.

Lemma filter_value_fst (pairs : list (string * R)) var val :
  filter_value pairs var = Some val -> var ∈ pairs.*1.
Proof.
  induction pairs as [|[k v] pairs IH]; [discriminate|].
  cbn. destruct (filter_value pairs var) as [w|].
  - intros [= <-]. right. apply IH. reflexivity.
  - case_decide; [|discriminate]. subst. intros _. left.
Qed.

Lemma filter_value_NoDup (pairs : list (string * R)) var val :
  NoDup pairs.*1 ->
  filter_value pairs var = Some val <-> (var, val) ∈ pairs.
Proof.
  induction pairs as [|[k v] pairs IH]; intros Hnd.
  - cbn. rewrite elem_of_nil. split; [discriminate | contradiction].
  - cbn in Hnd. apply NoDup_cons in Hnd as [Hk Hnd].
    specialize (IH Hnd). cbn. rewrite elem_of_cons.
    destruct (filter_value pairs var) as [w|] eqn:E.
    + assert (Hin : var ∈ pairs.*1) by (eapply filter_value_fst; eauto).
      rewrite IH. split; [auto|].
      intros [Heq|Hin']; [|assumption].
      injection Heq as -> ->. contradiction.
    + case_decide as Hkv.
      * subst. split.
        -- intros [= ->]. left. reflexivity.
        -- intros [Heq|Hin]; [injection Heq as ->; reflexivity|].
           apply IH in Hin. discriminate.
      * split; [discriminate|].
        intros [Heq|Hin]; [injection Heq as -> ->; contradiction|].
        apply IH in Hin. discriminate.
Qed.

Lemma passes_spec names (pairs : list (string * R)) r :
  passes names pairs r
  <-> forall var val, filter_value pairs var = Some val -> var ∈ names ->
        Rabs (r !!! var - val) < 1e-10.
Proof.
  unfold passes. rewrite Forall_forall. split.
  - intros H var val Hval Hin.
    pose proof (filter_value_fst pairs var val Hval) as Hfst.
    apply list_elem_of_fmap in Hfst as ([k v] & -> & Hp).
    specialize (H (k, v) Hp). cbn in H, Hval. rewrite Hval in H.
    apply H. assumption.
  - intros H [k v] _. cbn.
    destruct (filter_value pairs k) as [val|] eqn:E; [|exact I].
    apply H. assumption.
Qed.

Lemma passes_row_matches names (pairs : list (string * R)) r :
  passes names pairs r
  <-> row_matches names (SoftmaxPlot.parse_filters pairs) r.
Proof.
  rewrite passes_spec. unfold row_matches.
  split; intros H var val Hlook; apply H;
    [rewrite <- parse_filters_filter_value
    |rewrite parse_filters_filter_value]; assumption.
Qed.


Lemma two_rows_filters_lookup var val :
  SoftmaxPlot.parse_filters [("x1", 0); ("y", 5)] !! var = Some val ->
  var ∈ SoftmaxPlot.dtype_names two_rows -> var = "x1" /\ val = 0.
Proof.
  unfold SoftmaxPlot.parse_filters. cbn [foldl fst snd].
  intros Hlook Hin. apply lookup_insert_Some in Hlook as [[<- <-]|[_ Hlook]].
  - exfalso. cbn in Hin. rewrite !elem_of_cons, elem_of_nil in Hin.
    intuition discriminate.
  - apply lookup_insert_Some in Hlook as [[<- <-]|[_ Hlook]]; [auto|].
    rewrite lookup_empty in Hlook. discriminate.
Qed.

(** The filter "x1=0.0,y=5" on [two_rows]: the record with [x1 = 0] is
    kept, and the variable [y], which is no field, is ignored. *)
Lemma filter_two_rows :
  SoftmaxPlot.records (SoftmaxPlot.filter_data two_rows [("x1", 0); ("y", 5)])
  = [ {["i" := 1; "x0" := 2; "x1" := 0; "result" := 7]} ].
Proof.
  rewrite filter_data_records. cbn [SoftmaxPlot.records two_rows].
  rewrite filter_cons_True, filter_cons_False, filter_nil; [reflexivity| |].
  - intros H. specialize (H "x1" 0 eq_refl).
    replace (({["i" := 1; "x0" := 2; "x1" := 1; "result" := 8]}
               : gmap string R) !!! "x1") with 1 in H by reflexivity.
    assert (Hin : "x1" ∈ SoftmaxPlot.dtype_names two_rows)
      by (cbn; rewrite !elem_of_cons; auto).
    specialize (H Hin). unfold Rabs in H. destruct (Rcase_abs _); lra.
  - intros var val Hlook Hin.
    destruct (two_rows_filters_lookup var val Hlook Hin) as [-> ->].
    replace (({["i" := 1; "x0" := 2; "x1" := 0; "result" := 7]}
               : gmap string R) !!! "x1") with 0 by reflexivity.
    unfold Rabs. destruct (Rcase_abs _); lra.
Qed.


(** * Further properties *)

(** ** The two standard deviations *)

Lemma Rsum_squares_nonneg (m : R) (values : list R) :
  0 <= Rsum (map (fun x => (x - m) ^ 2) values).
Proof.
  induction values as [|v values IH]; cbn; [lra|].
  unfold Rsum in IH. pose proof (pow2_ge_0 (v - m)). cbn in *. lra.
Qed.

Lemma map_abs_square (m : R) (values : list R) :
  map (fun x => Rabs (x - m) ^ 2) values = map (fun x => (x - m) ^ 2) values.
Proof.
  apply map_ext. intros x. rewrite <- !Rsqr_pow2, <- Rsqr_abs. reflexivity.
Qed.



(** ** The estimators compared *)

Lemma log10_le x y : 0 < x -> x <= y -> log10 x <= log10 y.
Proof.
  intros Hx [Hlt| ->]; [|lra]. unfold log10. pose proof ln_10_pos.
  assert (ln x < ln y) by (apply ln_increasing; assumption).
  apply Rmult_le_compat_r; [left; apply Rinv_0_lt_compat; assumption | lra].
Qed.

Lemma ratio_le sd1 sd2 m :
  m <> 0 -> 0 < sd1 -> sd1 <= sd2 ->
  0 < sd1 / Rabs m /\ sd1 / Rabs m <= sd2 / Rabs m.
Proof.
  intros Hm H1 H12. assert (0 < Rabs m) by (apply Rabs_pos_lt; assumption).
  assert (0 < / Rabs m) by (apply Rinv_0_lt_compat; assumption).
  unfold Rdiv. split; nra.
Qed.

(** X3.  For a mean other than 0 the estimate never grows with the
    dispersion: a larger standard deviation gives an estimate that is at
    most the one of the smaller, in gelu/sigfigplot.py and in
    softmax/plot.py. *)
Theorem estimate_decreases_with_dispersion
    (mean sd1 sd2 prec_b : R) (precision_bits : Z) :
  mean <> 0 -> 0 <= sd1 -> sd1 <= sd2 ->
  GeluSigfigplot.s mean sd2 (GeluSigfigplot.prec_dec prec_b)
    <= GeluSigfigplot.s mean sd1 (GeluSigfigplot.prec_dec prec_b)
  /\ SoftmaxPlotStats.sig_digits mean sd2
       (SoftmaxPlotStats.max_sig_digits precision_bits)
     <= SoftmaxPlotStats.sig_digits mean sd1
          (SoftmaxPlotStats.max_sig_digits precision_bits).
Proof.
  intros Hm H1 H12.
  assert (Hmono : forall P, 0 < sd1 ->
            Rmin (- log10 (sd2 / Rabs mean)) P
            <= Rmin (- log10 (sd1 / Rabs mean)) P).
  { intros P Hpos. destruct (ratio_le sd1 sd2 mean Hm Hpos H12) as [Hr Hle].
    pose proof (log10_le _ _ Hr Hle).
    apply Rmin_glb; [|apply Rmin_r].
    eapply Rle_trans; [apply Rmin_l|]. lra. }
  unfold GeluSigfigplot.s, SoftmaxPlotStats.sig_digits. split.
  - repeat case_decide; try lra; try contradiction.
    + apply Rmin_r.
    + apply Hmono. lra.
  - repeat case_decide; try lra; try contradiction;
      try solve [exfalso; intuition lra]; try solve [apply Rmin_r].
    apply Hmono. destruct (Rle_lt_or_eq_dec 0 sd1 H1); [assumption|].
    exfalso. intuition lra.
Qed.

Lemma estimate_decreases_with_dispersion_witness :
  GeluSigfigplot.s 1 2 (GeluSigfigplot.prec_dec 53)
    <= GeluSigfigplot.s 1 1 (GeluSigfigplot.prec_dec 53).
Proof. apply (estimate_decreases_with_dispersion 1 1 2 53 53); lra. Defined.

(** X4.  The estimate of gelu/sigfigplot.py depends on the ratio of the
    dispersion to the mean only: multiplying both by the same factor
    [k > 0] leaves it unchanged. *)
Theorem estimate_scale_invariant (k mu sigma prec_dec : R) :
  0 < k ->
  GeluSigfigplot.s (k * mu) (k * sigma) prec_dec
  = GeluSigfigplot.s mu sigma prec_dec.
Proof.
  intros Hk. unfold GeluSigfigplot.s.
  repeat case_decide; try reflexivity; try nra.
  rewrite Rabs_mult, (Rabs_pos_eq k) by lra.
  assert (0 < Rabs mu) by (apply Rabs_pos_lt; assumption).
  replace (k * sigma / (k * Rabs mu)) with (sigma / Rabs mu)
    by (field; lra).
  reflexivity.
Qed.

Lemma estimate_scale_invariant_witness :
  GeluSigfigplot.s (3 * 1) (3 * 2) 16 = GeluSigfigplot.s 1 2 16.
Proof. apply (estimate_scale_invariant 3 1 2 16). lra. Defined.

(** X5.  The estimators of the four families of scripts agree up to the
    ceiling and the threshold: with the same ceiling, softmax/plot.py gives
    what gelu/sigfigplot.py gives whenever the standard deviation is 0 or
    at least 1e-15; for a mean other than 0 and a standard deviation above
    0 the ULP scripts give the uncapped value, of which the capped one is
    the minimum with the ceiling. *)
Theorem estimators_agree (mean std ceiling : R) :
  (std = 0 \/ 1e-15 <= std ->
   SoftmaxPlotStats.sig_digits mean std ceiling
   = GeluSigfigplot.s mean std ceiling)
  /\ (mean <> 0 -> 0 < std ->
      exists uncapped,
        GeluUlpplotStats.sig_digits mean (Some std) = Fin uncapped
        /\ UlpscriptStats.sig_digits mean (Some std) = Fin uncapped
        /\ GeluSigfigplot.s mean std ceiling = Rmin uncapped ceiling).
Proof.
  split.
  - intros Hstd. unfold SoftmaxPlotStats.sig_digits, GeluSigfigplot.s.
    repeat case_decide; try reflexivity; exfalso; intuition lra.
  - intros Hm Hs. exists (- log10 (std / Rabs mean)).
    unfold GeluUlpplotStats.sig_digits, UlpscriptStats.sig_digits,
      GeluSigfigplot.s.
    rewrite !bool_decide_eq_true_2 by assumption. cbn.
    repeat case_decide; try lra; try contradiction. auto.
Qed.

Lemma estimators_agree_witness :
  SoftmaxPlotStats.sig_digits 2 1 16 = GeluSigfigplot.s 2 1 16.
Proof. apply (estimators_agree 2 1 16). right. lra. Defined.

(** ** The error metrics *)

Lemma Rabs_eq_0 a : Rabs a = 0 <-> a = 0.
Proof.
  split; [|intros ->; apply Rabs_R0].
  intros H. destruct (Req_dec a 0) as [|Hd]; [assumption|].
  apply Rabs_no_R0 in Hd. contradiction.
Qed.

Lemma Rdiv_abs_eq_0 a b : b <> 0 -> (Rabs a / Rabs b = 0 <-> a = 0).
Proof.
  intros Hb. assert (0 < Rabs b) by (apply Rabs_pos_lt; assumption).
  split.
  - intros H0. apply Rabs_eq_0.
    apply (Rmult_eq_reg_r (/ Rabs b)); [|apply Rinv_neq_0_compat; lra].
    unfold Rdiv in H0. rewrite H0. lra.
  - intros ->. rewrite Rabs_R0. unfold Rdiv. lra.
Qed.

(** X6.  The relative error of gelu/plot.py is never negative, and it is 0
    exactly when the mean equals the expected value. *)
Theorem rel_err_zero_iff (mu expected : R) :
  0 <= GeluPlot.rel_err mu expected
  /\ (GeluPlot.rel_err mu expected = 0 <-> mu = expected).
Proof.
  unfold GeluPlot.rel_err. pose proof (Rabs_pos (mu - expected)) as Ha.
  repeat case_decide.
  - assert (0 < Rabs expected) by (apply Rabs_pos_lt; assumption).
    split.
    + apply Rmult_le_pos; [assumption|].
      left. apply Rinv_0_lt_compat. assumption.
    + rewrite Rdiv_abs_eq_0 by assumption. split; intros; lra.
  - split; [assumption|]. rewrite Rabs_eq_0. split; intros; lra.
  - split; [lra|]. split; intros; [assumption | reflexivity].
Qed.

(** X7.  The error in ULPs of gelu/ulpplot.py is never negative and is 0
    exactly when the mean equals the true value.  The computation of
    parallel_sum/ulpscript.py ([ulp > 0], no [abs]) gives the same number
    exactly when the true value is not negative or the mean equals the
    true value. *)
Theorem ulp_error_zero_iff (mean_val true_val : R) :
  0 <= GeluUlpplot.ulp_error mean_val true_val
  /\ (GeluUlpplot.ulp_error mean_val true_val = 0 <-> mean_val = true_val)
  /\ (ParallelSumUlpscript.ulp_error mean_val true_val
        = GeluUlpplot.ulp_error mean_val true_val
      <-> 0 <= true_val \/ mean_val = true_val).
Proof.
  rewrite gelu_ulp_error_eq.
  pose proof (spacing_nonzero 53 (-1022) true_val) as Hsp.
  fold spacing64 in Hsp.
  assert (0 < Rabs (spacing64 true_val)) by (apply Rabs_pos_lt; assumption).
  split; [|split].
  - apply Rmult_le_pos; [apply Rabs_pos|].
    left. apply Rinv_0_lt_compat. assumption.
  - rewrite Rdiv_abs_eq_0 by assumption. split; intros; lra.
  - split.
    + intros Heq.
      destruct (Rle_dec 0 true_val) as [|Hneg]; [left; assumption|].
      right. rewrite parallel_sum_ulp_error_negative in Heq by lra.
      symmetry in Heq. apply (proj1 (Rdiv_abs_eq_0 _ _ Hsp)) in Heq. lra.
    + unfold ParallelSumUlpscript.ulp_error. cbn zeta. intros [Htv | ->].
      * pose proof (spacing_pos 53 (-1022) true_val Htv) as Hpos.
        fold spacing64 in Hpos. case_decide; [|contradiction].
        rewrite (Rabs_pos_eq (spacing64 true_val)) by lra. reflexivity.
      * replace (true_val - true_val) with 0 by lra. rewrite Rabs_R0.
        unfold Rdiv. rewrite !Rmult_0_l. case_decide; reflexivity.
Qed.

(** ** The largest error in ULPs *)

Lemma track_fst_ge state row :
  state.1 <= (GeluUlpplotSummary.track state row).1
  /\ GeluUlpplot.row_ulp_error row <= (GeluUlpplotSummary.track state row).1.
Proof.
  unfold GeluUlpplotSummary.track. case_decide; cbn; lra.
Qed.

Lemma foldl_track_ge rows state :
  state.1 <= (foldl GeluUlpplotSummary.track state rows).1
  /\ Forall (fun row => GeluUlpplot.row_ulp_error row
                        <= (foldl GeluUlpplotSummary.track state rows).1)
            rows.
Proof.
  revert state. induction rows as [|row rows IH]; intros state; cbn.
  - split; [lra | constructor].
  - destruct (IH (GeluUlpplotSummary.track state row)) as [Hge Hall].
    destruct (track_fst_ge state row) as [H1 H2].
    split; [lra|]. constructor; [lra | assumption].
Qed.

(** The invariant of the loop: either nothing was recorded and the maximum
    is still the initial one, or the pair is a row that was seen. *)
Lemma foldl_track_inv rows state :
  let final := foldl GeluUlpplotSummary.track state rows in
  final = state
  \/ exists row, row ∈ rows
       /\ final = (GeluUlpplot.row_ulp_error row,
                   Some (GeluUlpplot.row_x row))
       /\ state.1 < GeluUlpplot.row_ulp_error row.
Proof.
  revert state. induction rows as [|row rows IH]; intros state; cbn.
  - left. reflexivity.
  - destruct (IH (GeluUlpplotSummary.track state row))
      as [Heq|(r & Hin & Heq & Hlt)].
    + rewrite Heq. unfold GeluUlpplotSummary.track. case_decide as Hd.
      * right. exists row. split; [left|]. split; [reflexivity | assumption].
      * left. reflexivity.
    + right. exists r. split; [right; assumption|]. split; [assumption|].
      destruct (track_fst_ge state row). lra.
Qed.

(** X8.  After the loop of gelu/ulpplot.py, [max_ulp_error] is at least
    every error written and at least 0.  When some error is above 0 the
    pair ([max_ulp_error], [max_ulp_x]) is the error and the coordinate of
    one of the rows; when no error is above 0 the pair is still
    [(0.0, None)], so the summary names no coordinate. *)
Theorem max_ulp_is_maximum (rows : list GeluUlpplot.csv_row) :
  let '(max_ulp_error, max_ulp_x) := GeluUlpplotSummary.max_ulp rows in
  0 <= max_ulp_error
  /\ Forall (fun row => GeluUlpplot.row_ulp_error row <= max_ulp_error) rows
  /\ ((exists row, row ∈ rows /\ 0 < GeluUlpplot.row_ulp_error row) ->
      exists row, row ∈ rows
        /\ max_ulp_error = GeluUlpplot.row_ulp_error row
        /\ max_ulp_x = Some (GeluUlpplot.row_x row))
  /\ (Forall (fun row => GeluUlpplot.row_ulp_error row <= 0) rows ->
      max_ulp_error = 0 /\ max_ulp_x = None).
Proof.
  unfold GeluUlpplotSummary.max_ulp.
  destruct (foldl_track_ge rows (0, None)) as [Hge Hall].
  pose proof (foldl_track_inv rows (0, None)) as Hinv. cbn zeta in Hinv.
  destruct (foldl GeluUlpplotSummary.track (0, None) rows)
    as [max_ulp_error max_ulp_x] eqn:E.
  cbn in Hge, Hall. split; [assumption|]. split; [assumption|]. split.
  - intros (row & Hin & Hpos).
    destruct Hinv as [Heq|(r & Hr & Heq & _)].
    + exfalso. injection Heq as -> ->.
      rewrite Forall_forall in Hall. specialize (Hall row Hin).
      cbn in Hall. lra.
    + exists r. injection Heq as -> ->. auto.
  - intros Hzero. destruct Hinv as [Heq|(r & Hr & Heq & Hlt)].
    + injection Heq as -> ->. auto.
    + exfalso. rewrite Forall_forall in Hzero. specialize (Hzero r Hr).
      cbn in Hlt, Hzero. lra.
Qed.

Lemma max_ulp_is_maximum_witness :
  let row := {| GeluUlpplot.row_x := 2; GeluUlpplot.row_mean := 1;
                GeluUlpplot.row_std_dev := None;
                GeluUlpplot.row_significant_digits := Fin 0;
                GeluUlpplot.row_true_value := 1;
                GeluUlpplot.row_abs_error := 0;
                GeluUlpplot.row_ulp_error := 0 |} in
  GeluUlpplotSummary.max_ulp [row] = (0, None).
Proof.
  intros row. pose proof (max_ulp_is_maximum [row]) as H.
  destruct (GeluUlpplotSummary.max_ulp [row]) as [e x].
  destruct H as (_ & _ & _ & Hzero).
  destruct Hzero as [-> ->]; [|reflexivity].
  constructor; [cbn; lra | constructor].
Defined.

(** ** Loading: what [dropna] keeps *)

(** X9.  [dropna] only removes rows: a sample is kept exactly when it
    comes from a row whose [i] is present and whose [x] and [result] are
    numbers, with these values unchanged; a frame without malformed rows is
    kept whole, and what gelu/ulpplot.py loads is never empty. *)
Theorem dropna_keeps_well_formed_rows (df : list PandasLoad.raw_row) :
  (forall s,
     s ∈ PandasLoad.dropna df
     <-> exists r, r ∈ df
           /\ PandasLoad.raw_i r = PandasLoad.i s
           /\ PandasLoad.i s <> PandasLoad.Missing
           /\ PandasLoad.raw_x r = PandasLoad.Num (PandasLoad.x s)
           /\ PandasLoad.raw_result r = PandasLoad.Num (PandasLoad.result s))
  /\ (length (PandasLoad.dropna df) <= length df)%nat
  /\ (Forall (fun r => ~ malformed r) df ->
      length (PandasLoad.dropna df) = length df)
  /\ (forall kept, PandasLoad.load df = Ok kept -> kept <> []).
Proof.
  split; [|split; [|split]].
  - intros s. unfold PandasLoad.dropna. rewrite list_elem_of_omap.
    split; intros (r & Hr & H); exists r; (split; [assumption|]).
    + unfold PandasLoad.coerce_dropna, PandasLoad.to_numeric in H.
      destruct r as [ci cx cr]. cbn in *.
      destruct ci, cx, cr; try discriminate; injection H as <-; cbn;
        repeat split; discriminate.
    + destruct H as (Hi & Hne & Hx & Hres). destruct s as [si sx sr].
      destruct r as [ci cx cr]. cbn in *. subst.
      unfold PandasLoad.coerce_dropna. cbn. destruct si; congruence.
  - unfold PandasLoad.dropna. induction df as [|r df IH]; cbn; [lia|].
    destruct (PandasLoad.coerce_dropna r); cbn; lia.
  - unfold PandasLoad.dropna. induction 1 as [|r df Hr _ IH]; cbn; [lia|].
    destruct (PandasLoad.coerce_dropna r) eqn:E.
    + cbn. rewrite IH. reflexivity.
    + exfalso. apply Hr, coerce_dropna_None. assumption.
  - intros kept. unfold PandasLoad.load.
    destruct (PandasLoad.dropna df); [discriminate|].
    intros [= <-]. discriminate.
Qed.

(** ** The header lines *)

(** X10.  [header_lines] is the position of the first data line: every
    line before it - a comment, the column names, or a row that does not
    parse - is counted as a header and skipped by [np.loadtxt], and the
    line at that position, when there is one, is a data line. *)
Theorem header_lines_first_data_line (f : list GeluTable.line) :
  let n := GeluTable.header_lines f in
  (n <= length f)%nat
  /\ (forall k ln, (k < n)%nat -> f !! k = Some ln -> ~ data_line ln)
  /\ (forall ln, f !! n = Some ln -> data_line ln)
  /\ (n = length f <-> Forall (fun ln => ~ data_line ln) f).
Proof.
  induction f as [|ln f IH]; cbn zeta.
  - cbn. repeat split; try lia; try discriminate; constructor.
  - destruct IH as (Hle & Hbefore & Hat & Hall). cbn zeta in *.
    assert (Hskip : ~ data_line ln ->
      GeluTable.header_lines (ln :: f) = S (GeluTable.header_lines f)).
    { intros Hnd. destruct ln as [text| |parts]; cbn; try reflexivity.
      destruct (GeluTable.is_data_line parts) eqn:E; [|reflexivity].
      exfalso. apply Hnd. exists parts. auto. }
    assert (Hstop : data_line ln -> GeluTable.header_lines (ln :: f) = 0%nat).
    { intros (parts & -> & E). cbn. rewrite E. reflexivity. }
    assert (Hdec : data_line ln \/ ~ data_line ln).
    { destruct ln as [text| |parts];
        try (right; intros (parts & Heq & _); discriminate).
      destruct (GeluTable.is_data_line parts) eqn:E.
      - left. exists parts. auto.
      - right. intros (parts' & [= <-] & E'). congruence. }
    destruct Hdec as [Hd|Hnd].
    + rewrite (Hstop Hd). cbn. split; [lia|]. split; [intros; lia|].
      split; [intros ln' [= <-]; assumption|]. split; [discriminate|].
      intros Hf. inversion Hf; contradiction.
    + rewrite (Hskip Hnd). cbn [length]. split; [lia|]. split; [|split].
      * intros [|k] ln' Hk; cbn; [intros [= <-]; assumption|].
        apply Hbefore. lia.
      * cbn. assumption.
      * rewrite Forall_cons. split.
        -- intros [= Hn]. split; [assumption | apply Hall; assumption].
        -- intros [_ Hf]. f_equal. apply Hall. assumption.
Qed.

(** ** Unique values and groups *)

Lemma insert_unique_sorted v sorted :
  StronglySorted Rlt sorted ->
  StronglySorted Rlt (SoftmaxPlot.insert_unique v sorted).
Proof.
  induction 1 as [|w rest Hrest IH Hall]; cbn.
  - repeat constructor.
  - repeat case_decide.
    + constructor; [constructor; assumption|].
      constructor; [assumption|].
      eapply Forall_impl; [exact Hall|]. cbn. intros; lra.
    + constructor; assumption.
    + constructor; [assumption|].
      apply Forall_forall. intros y Hy.
      apply elem_of_insert_unique in Hy as [->|Hy]; [lra|].
      rewrite Forall_forall in Hall. apply Hall. assumption.
Qed.

Lemma np_unique_sorted values :
  StronglySorted Rlt (SoftmaxPlot.np_unique values).
Proof.
  unfold SoftmaxPlot.np_unique. induction values as [|v values IH]; cbn.
  - constructor.
  - apply insert_unique_sorted. assumption.
Qed.

Lemma sorted_NoDup (l : list R) : StronglySorted Rlt l -> NoDup l.
Proof.
  induction 1 as [|w rest _ IH Hall]; constructor; [|assumption].
  intros Hin. rewrite Forall_forall in Hall. specialize (Hall w Hin). lra.
Qed.

Lemma np_unique_NoDup values : NoDup (SoftmaxPlot.np_unique values).
Proof. apply sorted_NoDup, np_unique_sorted. Qed.

(** The number of elements of [l] equal to [v], for [v] in a list without
    duplicates, is 1. *)
Lemma sum_indicator (l : list R) (v : R) :
  NoDup l -> v ∈ l ->
  sum_list ((fun u => if decide (v = u) then 1%nat else 0%nat) <$> l) = 1%nat.
Proof.
  induction 1 as [|w rest Hw _ IH]; intros Hin.
  - apply elem_of_nil in Hin. contradiction.
  - cbn. case_decide as Hd.
    + subst w. f_equal.
      clear IH Hin. induction rest as [|u rest IH]; [reflexivity|].
      cbn. case_decide.
      * subst u. exfalso. apply Hw. left.
      * apply IH. intros Hin. apply Hw. right. assumption.
    + apply elem_of_cons in Hin as [->|Hin]; [contradiction|].
      rewrite IH by assumption. reflexivity.
Qed.

Lemma sum_list_fmap_plus {A} (f g : A -> nat) (l : list A) :
  sum_list ((fun a => (f a + g a)%nat) <$> l)
  = (sum_list (f <$> l) + sum_list (g <$> l))%nat.
Proof. induction l as [|a l IH]; cbn; [reflexivity|]. rewrite IH. lia. Qed.

(** X11.  In gelu/sigfigplot.py the values of [x] are visited in strictly
    increasing order, each distinct value of the table once; the group of
    every visited value is not empty, and the groups share out the table:
    their sizes add up to the number of records. *)
Theorem groups_partition_table (D : list GeluTable.row) :
  StronglySorted Rlt (GeluTable.x_values D)
  /\ (forall xv, xv ∈ GeluTable.x_values D
                 <-> exists r, r ∈ D /\ GeluTable.x r = xv)
  /\ (forall xv, xv ∈ GeluTable.x_values D ->
                 GeluTable.result_samples D xv <> [])
  /\ sum_list ((fun xv => length (GeluTable.result_samples D xv))
                 <$> GeluTable.x_values D) = length D.
Proof.
  assert (Hmem : forall xv, xv ∈ GeluTable.x_values D
                   <-> exists r, r ∈ D /\ GeluTable.x r = xv).
  { intros xv. unfold GeluTable.x_values.
    rewrite elem_of_np_unique, list_elem_of_fmap.
    split; intros (r & H1 & H2); exists r; auto. }
  split; [apply np_unique_sorted|]. split; [exact Hmem|]. split.
  - intros xv (r & Hr & Hx)%Hmem. unfold GeluTable.result_samples.
    assert (Hin : r ∈ filter (fun r => GeluTable.x r = xv) D)
      by (apply list_elem_of_filter; auto).
    destruct (filter _ D); [apply elem_of_nil in Hin; contradiction|].
    discriminate.
  - pose proof (np_unique_NoDup (GeluTable.x <$> D)) as Hnd.
    fold (GeluTable.x_values D) in Hnd.
    assert (Hcov : forall r, r ∈ D -> GeluTable.x r ∈ GeluTable.x_values D)
      by (intros r Hr; apply Hmem; eauto).
    generalize dependent (GeluTable.x_values D). intros U _ Hnd Hcov.
    induction D as [|r D IH].
    + clear. induction U as [|u U IHU]; [reflexivity|].
      rewrite fmap_cons. cbn [sum_list_with]. rewrite IHU.
      unfold GeluTable.result_samples. rewrite filter_nil. reflexivity.
    + unfold GeluTable.result_samples in *.
      rewrite (list_fmap_ext _
        (fun xv => ((if decide (GeluTable.x r = xv)
                     then 1%nat else 0%nat)
                    + length (GeluTable.result <$>
                              filter (fun r0 => GeluTable.x r0 = xv) D))%nat)).
      * rewrite sum_list_fmap_plus, IH.
        -- rewrite sum_indicator; [reflexivity | assumption|].
           apply Hcov. left.
        -- intros r' Hr'. apply Hcov. right. assumption.
      * intros _ xv _. rewrite filter_cons. case_decide; reflexivity.
Qed.

(** ** The summary of the estimates *)

Lemma s_le_ceiling mu sigma ceiling :
  0 <= ceiling -> GeluSigfigplot.s mu sigma ceiling <= ceiling.
Proof.
  intros Hc. unfold GeluSigfigplot.s.
  repeat case_decide; [lra | lra | apply Rmin_r].
Qed.

Lemma foldl_Rmin_le (l : list R) a :
  foldl Rmin a l <= a /\ Forall (fun y => foldl Rmin a l <= y) l.
Proof.
  revert a. induction l as [|y l IH]; intros a; cbn.
  - split; [lra | constructor].
  - destruct (IH (Rmin a y)) as [H1 H2].
    pose proof (Rmin_l a y). pose proof (Rmin_r a y).
    split; [lra|]. constructor; [lra | assumption].
Qed.

Lemma foldl_Rmax_ge (l : list R) a :
  a <= foldl Rmax a l /\ Forall (fun y => y <= foldl Rmax a l) l.
Proof.
  revert a. induction l as [|y l IH]; intros a; cbn.
  - split; [lra | constructor].
  - destruct (IH (Rmax a y)) as [H1 H2].
    pose proof (Rmax_l a y). pose proof (Rmax_r a y).
    split; [lra|]. constructor; [lra | assumption].
Qed.

Lemma foldl_Rmax_le (l : list R) a bound :
  a <= bound -> Forall (fun y => y <= bound) l -> foldl Rmax a l <= bound.
Proof.
  intros Ha Hl. revert a Ha. induction Hl as [|y l Hy _ IH]; intros a Ha.
  - exact Ha.
  - cbn. apply IH. apply Rmax_lub; assumption.
Qed.

Lemma foldl_Rmin_elem (l : list R) a : foldl Rmin a l ∈ a :: l.
Proof.
  revert a. induction l as [|y l IH]; intros a; cbn; [left|].
  specialize (IH (Rmin a y)). apply elem_of_cons in IH as [->|IH].
  - unfold Rmin. destruct (Rle_dec a y); [left | right; left].
  - right. right. assumption.
Qed.

Lemma foldl_Rmax_elem (l : list R) a : foldl Rmax a l ∈ a :: l.
Proof.
  revert a. induction l as [|y l IH]; intros a; cbn; [left|].
  specialize (IH (Rmax a y)). apply elem_of_cons in IH as [->|IH].
  - unfold Rmax. destruct (Rle_dec a y); [right; left | left].
  - right. right. assumption.
Qed.

(** X12.  With [prec_b >= 0] no estimate of gelu/sigfigplot.py exceeds the
    ceiling [prec_b * log10 2].  The summary printed at the end raises
    [ValueError] exactly when the table has no record; otherwise the
    minimum and the maximum it prints are two of the estimates, every
    estimate lies between them, and the maximum is at most the ceiling. *)
Theorem summary_of_estimates (D : list GeluTable.row) (prec_b : R) :
  0 <= prec_b ->
  Forall (fun s => s <= prec_b * log10 2) (GeluTable.s_values D prec_b)
  /\ (GeluTable.summary (GeluTable.s_values D prec_b) = Raise ValueError
      <-> D = [])
  /\ (D <> [] ->
      exists average smallest largest,
        GeluTable.summary (GeluTable.s_values D prec_b)
        = Ok (average, smallest, largest)
        /\ smallest ∈ GeluTable.s_values D prec_b
        /\ largest ∈ GeluTable.s_values D prec_b
        /\ Forall (fun s => smallest <= s <= largest)
             (GeluTable.s_values D prec_b)
        /\ largest <= prec_b * log10 2).
Proof.
  intros Hprec.
  assert (Hceil : 0 <= prec_b * log10 2)
    by (pose proof log10_2_pos; nra).
  assert (Hall : Forall (fun s => s <= prec_b * log10 2)
                   (GeluTable.s_values D prec_b)).
  { unfold GeluTable.s_values, GeluTable.statistics.
    rewrite <- list_fmap_compose. apply Forall_fmap, Forall_forall.
    intros xv _. cbn. apply s_le_ceiling. exact Hceil. }
  assert (Hempty : GeluTable.s_values D prec_b = [] <-> D = []).
  { unfold GeluTable.s_values, GeluTable.statistics. split.
    - intros H. apply fmap_nil_inv, fmap_nil_inv in H.
      destruct D as [|r D]; [reflexivity|]. exfalso.
      assert (Hin : GeluTable.x r ∈ GeluTable.x_values (r :: D)).
      { apply (groups_partition_table (r :: D)). exists r.
        split; [left | reflexivity]. }
      rewrite H in Hin. apply elem_of_nil in Hin. contradiction.
    - intros ->. reflexivity. }
  split; [exact Hall|]. split.
  - rewrite <- Hempty. unfold GeluTable.summary.
    destruct (GeluTable.s_values D prec_b); split; congruence.
  - intros Hne. unfold GeluTable.summary.
    destruct (GeluTable.s_values D prec_b) as [|s0 rest] eqn:E.
    { exfalso. apply Hne, Hempty. reflexivity. }
    do 3 eexists. split; [reflexivity|].
    destruct (foldl_Rmin_le rest s0) as [Hmin0 Hmin].
    destruct (foldl_Rmax_ge rest s0) as [Hmax0 Hmax].
    inversion Hall as [|? ? Hs0 Hrest]; subst. cbn.
    split; [apply foldl_Rmin_elem|]. split; [apply foldl_Rmax_elem|].
    split.
    + constructor; [lra|].
      rewrite Forall_forall in Hmin, Hmax. apply Forall_forall.
      intros y Hy. split; [apply Hmin | apply Hmax]; assumption.
    + apply foldl_Rmax_le; assumption.
Qed.

(** X12 on a table of three records with two values of [x]. *)
Lemma summary_of_estimates_witness :
  let D := [ {| GeluTable.i := 1; GeluTable.x := 0; GeluTable.result := 1 |};
             {| GeluTable.i := 2; GeluTable.x := 0; GeluTable.result := 3 |};
             {| GeluTable.i := 1; GeluTable.x := 1; GeluTable.result := 7 |} ]
  in
  Forall (fun s => s <= 53 * log10 2) (GeluTable.s_values D 53).
Proof. intros D. apply (summary_of_estimates D 53). lra. Defined.

(** ** The statistics of softmax/plot.py *)

Lemma compute_statistics_unfold data precision_bits :
  SoftmaxPlot.compute_statistics data precision_bits
  = SoftmaxPlot.np_unique (SoftmaxPlot.x0 <$> data)
      ≫= stats_of_x0 data precision_bits
            (SoftmaxPlot.np_unique (SoftmaxPlot.x1 <$> data)).
Proof. reflexivity. Qed.

Lemma stats_of_x0_inv data precision_bits U1 u0 s :
  s ∈ stats_of_x0 data precision_bits U1 u0 ->
  SoftmaxPlot.stat_x0 s = u0 /\ SoftmaxPlot.stat_x1 s ∈ U1.
Proof.
  unfold stats_of_x0. intros (u1 & Hs & Hu1)%list_elem_of_bind.
  destruct (SoftmaxPlot.result <$> _) in Hs;
    [apply elem_of_nil in Hs; contradiction|].
  apply list_elem_of_singleton in Hs. subst s. cbn. auto.
Qed.

Lemma stats_of_x0_sorted data precision_bits U1 u0 :
  StronglySorted Rlt U1 ->
  StronglySorted stat_lt (stats_of_x0 data precision_bits U1 u0).
Proof.
  induction 1 as [|u1 U1 _ IH Hall].
  - constructor.
  - unfold stats_of_x0 in *. cbn [mbind list_bind] in *.
    destruct (SoftmaxPlot.result <$> _); [exact IH|].
    cbn [app]. constructor; [exact IH|].
    apply Forall_forall. intros s Hs.
    destruct (stats_of_x0_inv data precision_bits U1 u0 s Hs) as [H0 H1].
    right. cbn. split; [congruence|].
    rewrite Forall_forall in Hall. apply Hall. assumption.
Qed.

Lemma bind_stats_sorted data precision_bits U0 U1 :
  StronglySorted Rlt U0 -> StronglySorted Rlt U1 ->
  StronglySorted stat_lt (U0 ≫= stats_of_x0 data precision_bits U1).
Proof.
  intros H0 H1. induction H0 as [|u0 U0 _ IH Hall]; [constructor|].
  cbn [mbind list_bind]. apply StronglySorted_app_2; [| | exact IH].
  - intros a b Ha Hb. left.
    apply stats_of_x0_inv in Ha as [-> _].
    apply list_elem_of_bind in Hb as (u & Hb & Hu).
    apply stats_of_x0_inv in Hb as [-> _].
    rewrite Forall_forall in Hall. apply Hall. assumption.
  - apply stats_of_x0_sorted. assumption.
Qed.

Lemma sum_count_stats_of_x0 data precision_bits U1 u0 :
  sum_list (SoftmaxPlot.stat_count
              <$> stats_of_x0 data precision_bits U1 u0)
  = sum_list ((fun u1 =>
       length (filter (fun r => SoftmaxPlot.x0 r = u0
                                /\ SoftmaxPlot.x1 r = u1) data)) <$> U1).
Proof.
  induction U1 as [|u1 U1 IH]; [reflexivity|].
  unfold stats_of_x0 in *. cbn [mbind list_bind].
  rewrite fmap_app, sum_list_with_app, IH, fmap_cons. cbn [sum_list_with].
  f_equal.
  destruct (filter _ data) as [|r l]; [reflexivity|].
  cbn. rewrite length_fmap. lia.
Qed.

Lemma fmap_of_bind {A B C} (f : B -> C) (g : A -> list B) (l : list A) :
  f <$> (l ≫= g) = l ≫= (fun a => f <$> g a).
Proof.
  induction l as [|a l IH]; [reflexivity|].
  cbn [mbind list_bind]. rewrite fmap_app, IH. reflexivity.
Qed.

Lemma sum_list_bind {A} (f : A -> list nat) (l : list A) :
  sum_list (l ≫= f) = sum_list ((fun a => sum_list (f a)) <$> l).
Proof.
  induction l as [|a l IH]; [reflexivity|].
  cbn [mbind list_bind]. rewrite sum_list_with_app, IH. reflexivity.
Qed.

(** The number of pairs [(u0, u1)] of two lists without duplicates that
    equal a given pair of their elements is 1. *)
Lemma sum_indicator_pair (U0 U1 : list R) (v0 v1 : R) :
  NoDup U0 -> NoDup U1 -> v0 ∈ U0 -> v1 ∈ U1 ->
  sum_list ((fun u0 =>
     sum_list ((fun u1 => if decide (v0 = u0 /\ v1 = u1)
                          then 1%nat else 0%nat) <$> U1)) <$> U0)
  = 1%nat.
Proof.
  intros Hn0 Hn1 H0 H1.
  rewrite (list_fmap_ext _
    (fun u0 => if decide (v0 = u0) then 1%nat else 0%nat)).
  - apply sum_indicator; assumption.
  - intros _ u0 _. cbn beta. case_decide as Hd.
    + subst u0.
      rewrite (list_fmap_ext _
        (fun u1 => if decide (v1 = u1) then 1%nat else 0%nat)).
      * apply sum_indicator; assumption.
      * intros _ u1 _. cbn beta.
        repeat case_decide; try reflexivity; exfalso; intuition congruence.
    + clear -Hd. induction U1 as [|u1 U1 IH]; [reflexivity|].
      cbn. rewrite IH.
      case_decide; [exfalso; intuition congruence | reflexivity].
Qed.

(** X13.  The statistics of softmax/plot.py for two inputs come in
    strictly increasing order of [(x0, x1)], so no pair of coordinates has
    two entries; no entry has a count of 0; and the counts add up to the
    number of records: every record is in the group of exactly one
    entry. *)
Theorem compute_statistics_partition
    (data : list SoftmaxPlot.row) (precision_bits : Z) :
  let stats := SoftmaxPlot.compute_statistics data precision_bits in
  StronglySorted stat_lt stats
  /\ Forall (fun s => (0 < SoftmaxPlot.stat_count s)%nat) stats
  /\ sum_list (SoftmaxPlot.stat_count <$> stats) = length data.
Proof.
  cbn zeta. rewrite compute_statistics_unfold.
  set (U0 := SoftmaxPlot.np_unique (SoftmaxPlot.x0 <$> data)).
  set (U1 := SoftmaxPlot.np_unique (SoftmaxPlot.x1 <$> data)).
  split; [apply bind_stats_sorted; apply np_unique_sorted|]. split.
  - apply Forall_forall. intros s (u0 & Hs & _)%list_elem_of_bind.
    unfold stats_of_x0 in Hs.
    apply list_elem_of_bind in Hs as (u1 & Hs & _).
    destruct (filter _ data) as [|r l];
      [apply elem_of_nil in Hs; contradiction|].
    apply list_elem_of_singleton in Hs. subst s. cbn. lia.
  - rewrite fmap_of_bind, sum_list_bind.
    rewrite (list_fmap_ext _ (fun u0 => sum_list ((fun u1 =>
       length (filter (fun r => SoftmaxPlot.x0 r = u0
                                /\ SoftmaxPlot.x1 r = u1) data)) <$> U1)));
      [|intros _ u0 _; apply sum_count_stats_of_x0].
    assert (Hc0 : forall r, r ∈ data -> SoftmaxPlot.x0 r ∈ U0)
      by (intros r Hr; apply elem_of_np_unique, list_elem_of_fmap; eauto).
    assert (Hc1 : forall r, r ∈ data -> SoftmaxPlot.x1 r ∈ U1)
      by (intros r Hr; apply elem_of_np_unique, list_elem_of_fmap; eauto).
    pose proof (np_unique_NoDup (SoftmaxPlot.x0 <$> data)) as Hn0.
    pose proof (np_unique_NoDup (SoftmaxPlot.x1 <$> data)) as Hn1.
    fold U0 in Hn0. fold U1 in Hn1.
    clearbody U0 U1. induction data as [|r data IH].
    + clear. induction U0 as [|u0 U0 IH0]; [reflexivity|].
      rewrite fmap_cons. cbn [sum_list_with]. rewrite IH0.
      clear. induction U1 as [|u1 U1 IH1]; [reflexivity|].
      rewrite fmap_cons. cbn [sum_list_with].
      rewrite filter_nil. cbn in *. lia.
    + rewrite (list_fmap_ext _ (fun u0 =>
        (sum_list ((fun u1 =>
            if decide (SoftmaxPlot.x0 r = u0 /\ SoftmaxPlot.x1 r = u1)
            then 1%nat else 0%nat) <$> U1)
         + sum_list ((fun u1 =>
            length (filter (fun r0 => SoftmaxPlot.x0 r0 = u0
                                      /\ SoftmaxPlot.x1 r0 = u1) data))
                     <$> U1))%nat)).
      * rewrite sum_list_fmap_plus, IH.
        -- rewrite sum_indicator_pair; [reflexivity | assumption..| |].
           ++ apply Hc0. left.
           ++ apply Hc1. left.
        -- intros r' Hr'. apply Hc0. right. assumption.
        -- intros r' Hr'. apply Hc1. right. assumption.
      * intros _ u0 _. cbn beta. rewrite <- sum_list_fmap_plus.
        f_equal. apply list_fmap_ext. intros _ u1 _. cbn beta.
        rewrite filter_cons. case_decide; reflexivity.
Qed.

(** ** The heat map of softmax/plot.py *)

Lemma index_lookup (l : list R) v :
  v ∈ l -> l !! SoftmaxPlot.index l v = Some v.
Proof.
  induction l as [|w l IH]; intros Hin.
  - apply elem_of_nil in Hin. contradiction.
  - cbn. case_decide as Hd; [subst; reflexivity|].
    apply elem_of_cons in Hin as [->|Hin]; [contradiction|].
    cbn. apply IH. assumption.
Qed.

Lemma set_cell_shape matrix j i v columns :
  Forall (fun row => length row = columns) matrix ->
  length (SoftmaxPlot.set_cell matrix j i v) = length matrix
  /\ Forall (fun row => length row = columns)
            (SoftmaxPlot.set_cell matrix j i v).
Proof.
  intros Hshape. unfold SoftmaxPlot.set_cell.
  split; [apply length_insert|].
  destruct (decide (j < length matrix)%nat) as [Hj|Hj].
  - apply Forall_insert; [assumption|]. rewrite length_insert.
    destruct (lookup_lt_is_Some_2 matrix j Hj) as [row Hrow].
    rewrite (list_lookup_total_correct _ _ _ Hrow).
    rewrite Forall_forall in Hshape. apply Hshape.
    eapply list_elem_of_lookup_2. eassumption.
  - rewrite list_insert_ge by lia. assumption.
Qed.

Lemma set_cell_cell_eq matrix j i v columns :
  Forall (fun row => length row = columns) matrix ->
  (j < length matrix)%nat -> (i < columns)%nat ->
  cell (SoftmaxPlot.set_cell matrix j i v) j i = Some v.
Proof.
  intros Hshape Hj Hi. unfold cell, SoftmaxPlot.set_cell.
  rewrite list_lookup_insert_eq by assumption. cbn.
  apply list_lookup_insert_eq.
  destruct (lookup_lt_is_Some_2 matrix j Hj) as [row Hrow].
  rewrite (list_lookup_total_correct _ _ _ Hrow).
  rewrite Forall_forall in Hshape.
  rewrite (Hshape row); [assumption|].
  eapply list_elem_of_lookup_2. eassumption.
Qed.

Lemma set_cell_cell_ne matrix j i v j' i' :
  (j, i) <> (j', i') ->
  cell (SoftmaxPlot.set_cell matrix j i v) j' i' = cell matrix j' i'.
Proof.
  intros Hne. unfold cell, SoftmaxPlot.set_cell.
  destruct (decide (j = j')) as [<-|Hj].
  - destruct (decide (j < length matrix)%nat) as [Hlt|Hge].
    + rewrite list_lookup_insert_eq by assumption. cbn.
      destruct (lookup_lt_is_Some_2 matrix j Hlt) as [row Hrow].
      rewrite (list_lookup_total_correct _ _ _ Hrow), Hrow. cbn.
      apply list_lookup_insert_ne. congruence.
    + rewrite list_insert_ge by lia. reflexivity.
  - rewrite list_lookup_insert_ne by assumption. reflexivity.
Qed.

Lemma fill_matrix_shape U0 U1 stats :
  length (fill_matrix U0 U1 stats) = length U1
  /\ Forall (fun row => length row = length U0) (fill_matrix U0 U1 stats).
Proof.
  unfold fill_matrix. induction stats as [|s stats IH] using rev_ind.
  - cbn. rewrite length_replicate. split; [reflexivity|].
    apply Forall_replicate. apply length_replicate.
  - rewrite foldl_snoc. destruct IH as [Hlen Hshape].
    destruct (set_cell_shape _
      (SoftmaxPlot.index U1 (SoftmaxPlot.stat_x1 s))
      (SoftmaxPlot.index U0 (SoftmaxPlot.stat_x0 s))
      (SoftmaxPlot.stat_sig_digits s) _ Hshape) as [Hlen' Hshape'].
    split; [congruence | assumption].
Qed.

Lemma index_lt (l : list R) v :
  v ∈ l -> (SoftmaxPlot.index l v < length l)%nat.
Proof.
  intros Hin. apply lookup_lt_is_Some. rewrite index_lookup by assumption.
  eauto.
Qed.

Lemma fill_matrix_cells U0 U1 stats :
  Forall (fun s => SoftmaxPlot.stat_x0 s ∈ U0
                   /\ SoftmaxPlot.stat_x1 s ∈ U1) stats ->
  (forall i j u0 u1,
     U0 !! i = Some u0 -> U1 !! j = Some u1 ->
     (forall s, s ∈ stats ->
        ~ (SoftmaxPlot.stat_x0 s = u0 /\ SoftmaxPlot.stat_x1 s = u1)) ->
     cell (fill_matrix U0 U1 stats) j i = Some 0)
  /\ (NoDup ((fun s => (SoftmaxPlot.stat_x0 s, SoftmaxPlot.stat_x1 s))
               <$> stats) ->
      forall s, s ∈ stats ->
        cell (fill_matrix U0 U1 stats)
             (SoftmaxPlot.index U1 (SoftmaxPlot.stat_x1 s))
             (SoftmaxPlot.index U0 (SoftmaxPlot.stat_x0 s))
        = Some (SoftmaxPlot.stat_sig_digits s)).
Proof.
  induction stats as [|t stats IH] using rev_ind; intros Hcov.
  - split.
    + intros i j u0 u1 Hi Hj _. unfold fill_matrix, cell. cbn.
      rewrite lookup_replicate_2 by (eapply lookup_lt_Some; eassumption).
      cbn. apply lookup_replicate_2. eapply lookup_lt_Some. eassumption.
    + intros _ s Hs. apply elem_of_nil in Hs. contradiction.
  - apply Forall_app in Hcov as [Hcov Ht].
    apply Forall_singleton in Ht as [Ht0 Ht1].
    destruct (IH Hcov) as [IHzero IHfill].
    destruct (fill_matrix_shape U0 U1 stats) as [Hlen Hshape].
    assert (Hstep : fill_matrix U0 U1 (stats ++ [t])
      = SoftmaxPlot.set_cell (fill_matrix U0 U1 stats)
          (SoftmaxPlot.index U1 (SoftmaxPlot.stat_x1 t))
          (SoftmaxPlot.index U0 (SoftmaxPlot.stat_x0 t))
          (SoftmaxPlot.stat_sig_digits t))
      by (unfold fill_matrix; rewrite foldl_snoc; reflexivity).
    rewrite Hstep. split.
    + intros i j u0 u1 Hi Hj Hnone.
      rewrite set_cell_cell_ne.
      * apply (IHzero i j u0 u1 Hi Hj). intros s Hs. apply Hnone.
        apply elem_of_app. left. assumption.
      * intros [= <- <-]. apply (Hnone t).
        -- apply elem_of_app. right. left.
        -- rewrite index_lookup in Hi, Hj by assumption.
           split; congruence.
    + intros Hnd s Hs. rewrite fmap_app in Hnd.
      apply NoDup_app in Hnd as (Hnd & Hdisj & _).
      apply elem_of_app in Hs as [Hs|Hs].
      * rewrite set_cell_cell_ne; [apply IHfill; assumption|].
        intros [= Hj Hi]. apply (Hdisj (SoftmaxPlot.stat_x0 s,
                                        SoftmaxPlot.stat_x1 s)).
        -- apply list_elem_of_fmap. exists s. auto.
        -- rewrite Forall_forall in Hcov. destruct (Hcov s Hs) as [Hs0 Hs1].
           pose proof (index_lookup U0 _ Hs0) as E0.
           pose proof (index_lookup U1 _ Hs1) as E1.
           rewrite <- Hi, index_lookup in E0 by assumption.
           rewrite <- Hj, index_lookup in E1 by assumption.
           injection E0 as <-. injection E1 as <-. cbn. left.
      * apply list_elem_of_singleton in Hs. subst s.
        apply (set_cell_cell_eq _ _ _ _ (length U0)); [assumption| |].
        -- rewrite Hlen. apply index_lt. assumption.
        -- apply index_lt. assumption.
Qed.

(** X14.  The heat map of significant digits has one row per unique [x1]
    and one column per unique [x0] of the statistics.  When no two entries
    have the same pair of coordinates (which holds for the entries of
    [compute_statistics]), the cell of every entry holds its estimate, and
    the cell of a pair of unique values without entry holds the 0 of
    [np.zeros]: a missing combination is drawn as zero digits, not as
    missing. *)
Theorem sig_digits_matrix_cells (stats : list SoftmaxPlot.stat) :
  NoDup ((fun s => (SoftmaxPlot.stat_x0 s, SoftmaxPlot.stat_x1 s))
           <$> stats) ->
  let unique_x0 := SoftmaxPlot.np_unique (SoftmaxPlot.stat_x0 <$> stats) in
  let unique_x1 := SoftmaxPlot.np_unique (SoftmaxPlot.stat_x1 <$> stats) in
  let matrix := SoftmaxPlot.sig_digits_matrix stats in
  length matrix = length unique_x1
  /\ Forall (fun row => length row = length unique_x0) matrix
  /\ (forall s, s ∈ stats ->
        cell matrix (SoftmaxPlot.index unique_x1 (SoftmaxPlot.stat_x1 s))
                    (SoftmaxPlot.index unique_x0 (SoftmaxPlot.stat_x0 s))
        = Some (SoftmaxPlot.stat_sig_digits s))
  /\ (forall i j u0 u1,
        unique_x0 !! i = Some u0 -> unique_x1 !! j = Some u1 ->
        (forall s, s ∈ stats ->
           ~ (SoftmaxPlot.stat_x0 s = u0 /\ SoftmaxPlot.stat_x1 s = u1)) ->
        cell matrix j i = Some 0).
Proof.
  intros Hnd U0 U1 matrix.
  assert (Hcov : Forall (fun s => SoftmaxPlot.stat_x0 s ∈ U0
                                  /\ SoftmaxPlot.stat_x1 s ∈ U1) stats).
  { apply Forall_forall. intros s Hs.
    split; apply elem_of_np_unique, list_elem_of_fmap; eauto. }
  change matrix with (fill_matrix U0 U1 stats).
  destruct (fill_matrix_shape U0 U1 stats) as [Hlen Hshape].
  destruct (fill_matrix_cells U0 U1 stats Hcov) as [Hzero Hfill].
  split; [assumption|]. split; [assumption|]. split.
  - apply Hfill. assumption.
  - exact Hzero.
Qed.

Lemma stat_lt_sorted_NoDup (stats : list SoftmaxPlot.stat) :
  StronglySorted stat_lt stats ->
  NoDup ((fun s => (SoftmaxPlot.stat_x0 s, SoftmaxPlot.stat_x1 s))
           <$> stats).
Proof.
  induction 1 as [|s stats _ IH Hall]; cbn; constructor; [|assumption].
  intros (t & Heq & Ht)%list_elem_of_fmap. injection Heq as H0 H1.
  rewrite Forall_forall in Hall. destruct (Hall t Ht) as [Hlt|[_ Hlt]]; lra.
Qed.

(** The entries of [compute_statistics] have pairwise different pairs of
    coordinates. *)
Lemma compute_statistics_coordinates_NoDup data precision_bits :
  NoDup ((fun s => (SoftmaxPlot.stat_x0 s, SoftmaxPlot.stat_x1 s))
           <$> SoftmaxPlot.compute_statistics data precision_bits).
Proof.
  apply stat_lt_sorted_NoDup.
  apply (compute_statistics_partition data precision_bits).
Qed.

Lemma sig_digits_matrix_cells_witness :
  let s := {| SoftmaxPlot.stat_x0 := 1; SoftmaxPlot.stat_x1 := 2;
              SoftmaxPlot.stat_mean := 7; SoftmaxPlot.stat_std := 0;
              SoftmaxPlot.stat_min := 7; SoftmaxPlot.stat_max := 7;
              SoftmaxPlot.stat_count := 1;
              SoftmaxPlot.stat_sig_digits := 5 |} in
  length (SoftmaxPlot.sig_digits_matrix [s]) = 1%nat.
Proof.
  intros s. apply (sig_digits_matrix_cells [s]). apply NoDup_singleton.
Defined.

(** ** The square grid of harmonic/heatmap.py, in general *)

(** X15.  When harmonic/heatmap.py accepts the values, the grid is square
    with [side * side] equal to their number, and the values of the file
    fill it column by column: the cell in row [row] and column [col] is
    the value number [col * side + row], so every value of the file is in
    exactly one cell. *)
Theorem err_grid_cells (errors : list R) (grid : list (list R)) :
  HarmonicHeatmap.err_grid errors = Ok grid ->
  let side := length grid in
  (side * side)%nat = length errors
  /\ Forall (fun row => length row = side) grid
  /\ (forall row col, (row < side)%nat -> (col < side)%nat ->
        cell grid row col = errors !! (col * side + row)%nat)
  /\ (forall k v, errors !! k = Some v ->
        cell grid (k mod side) (k / side) = Some v).
Proof.
  unfold HarmonicHeatmap.err_grid. cbn zeta.
  case_decide as Hsq; [discriminate|].
  intros [= <-].
  set (side := Nat.sqrt (length errors)) in *.
  assert (Hside : (side * side)%nat = length errors).
  { destruct (decide ((side * side)%nat = length errors));
      [assumption | contradiction]. }
  assert (Hlen : length (HarmonicHeatmap.reshape_T side errors) = side).
  { unfold HarmonicHeatmap.reshape_T. rewrite length_fmap, length_seq.
    reflexivity. }
  rewrite Hlen.
  assert (Hcell : forall row col, (row < side)%nat -> (col < side)%nat ->
            cell (HarmonicHeatmap.reshape_T side errors) row col
            = errors !! (col * side + row)%nat).
  { intros row col Hrow Hcol.
    destruct (reshape_T_cell side errors row col Hrow Hcol (eq_sym Hside))
      as (v & Hv & Hv'). unfold cell. rewrite Hv, Hv'. reflexivity. }
  split; [assumption|]. split; [|split; [exact Hcell|]].
  - unfold HarmonicHeatmap.reshape_T. apply Forall_fmap, Forall_forall.
    intros row _. cbn. rewrite length_fmap, length_seq. reflexivity.
  - intros k v Hk. pose proof (lookup_lt_Some _ _ _ Hk) as Hlt.
    assert (Hpos : (0 < side)%nat) by nia.
    rewrite Hcell.
    + rewrite <- Hk. f_equal.
      rewrite (Nat.div_mod_eq k side) at 3. lia.
    + apply Nat.mod_upper_bound. lia.
    + apply Nat.Div0.div_lt_upper_bound. nia.
Qed.

Lemma err_grid_cells_witness :
  cell (HarmonicHeatmap.reshape_T 2 [1; 2; 3; 4]) (3 mod 2) (3 / 2)
  = Some 4.
Proof.
  apply (err_grid_cells [1; 2; 3; 4]
           (HarmonicHeatmap.reshape_T 2 [1; 2; 3; 4]));
    reflexivity.
Defined.

(** ** The choice of the plot in softmax/plot.py *)

(** X16.  [main] prints the warning and falls back to the summary of
    statistics exactly when the type asked for is [scatter] or [3d], which
    no branch draws, or [line] without exactly one varying input, or
    [heatmap] without exactly two; [auto] never takes the fallback, and
    whenever the warning is printed the figure is the summary. *)
Theorem warning_fallback (arg : SoftmaxPlotMain.plot_type)
    (n_varying : nat) (varying_inputs : list string) :
  let '(fig, warning) :=
    SoftmaxPlotMain.choose_figure arg n_varying varying_inputs in
  (warning = true
   <-> arg = SoftmaxPlotMain.Scatter \/ arg = SoftmaxPlotMain.ThreeD
       \/ (arg = SoftmaxPlotMain.Line /\ n_varying <> 1%nat)
       \/ (arg = SoftmaxPlotMain.Heatmap /\ n_varying <> 2%nat))
  /\ (warning = true -> fig = SoftmaxPlotMain.PlotStatisticsSummary)
  /\ (fig = SoftmaxPlotMain.Plot2dHeatmap -> n_varying = 2%nat)
  /\ (forall name, fig = SoftmaxPlotMain.Plot1dData name ->
        n_varying = 1%nat).
Proof.
  unfold SoftmaxPlotMain.choose_figure.
  destruct arg; repeat case_decide; subst; cbn;
    (split; [split; [intros Hw; try discriminate Hw; intuition congruence
                    | intros Hw; try reflexivity; exfalso;
                      intuition (try discriminate; try congruence; try lia)]
            | repeat split; intros; try discriminate; try reflexivity;
              try lia]).
Qed.

(** ** The varying inputs of softmax/plot.py *)

Lemma np_unique_several (values : list R) :
  (1 < length (SoftmaxPlot.np_unique values))%nat
  <-> exists a b, a ∈ values /\ b ∈ values /\ a <> b.
Proof.
  pose proof (np_unique_NoDup values) as Hnd.
  pose proof (fun v => elem_of_np_unique v values) as Hmem.
  destruct (SoftmaxPlot.np_unique values) as [|a [|b rest]]; cbn.
  - split; [lia|]. intros (a & b & Ha & _). apply Hmem in Ha.
    apply elem_of_nil in Ha. contradiction.
  - split; [lia|]. intros (c & d & Hc & Hd & Hne).
    apply Hmem, list_elem_of_singleton in Hc.
    apply Hmem, list_elem_of_singleton in Hd. congruence.
  - split; [|lia]. intros _. exists a, b. split; [|split].
    + apply Hmem. left.
    + apply Hmem. right. left.
    + intros ->. apply NoDup_cons in Hnd as [Hn _]. apply Hn. left.
Qed.

Lemma column_elem k data values :
  SoftmaxPlotMain.column k data = Some values ->
  forall a, a ∈ values <-> exists r, r ∈ data /\ r !! k = Some a.
Proof.
  unfold SoftmaxPlotMain.column. intros H%mapM_Some.
  induction H as [|r a' data values Hr _ IH]; intros a.
  - split; [intros Ha%elem_of_nil; contradiction|].
    intros (r & Hr%elem_of_nil & _). contradiction.
  - rewrite elem_of_cons, IH. split.
    + intros [->|(r' & Hr' & Ha)].
      * exists r. split; [left | assumption].
      * exists r'. split; [right|]; assumption.
    + intros (r' & Hr' & Ha). apply elem_of_cons in Hr' as [->|Hr'].
      * left. congruence.
      * right. eauto.
Qed.

Lemma varying_spec total_inputs k name data v :
  SoftmaxPlotMain.varying total_inputs k name data = Some v ->
  (v = [name] /\ (Z.of_nat k <= total_inputs)%Z /\ differ k data)
  \/ (v = [] /\ ~ ((Z.of_nat k <= total_inputs)%Z /\ differ k data)).
Proof.
  unfold SoftmaxPlotMain.varying. case_decide as Hk.
  - destruct (SoftmaxPlotMain.column k data) as [values|] eqn:E;
      [|discriminate].
    cbn. pose proof (column_elem k data values E) as Hmem.
    case_decide as Hlen; intros [= <-].
    + left. split; [reflexivity|]. split; [assumption|].
      apply np_unique_several in Hlen as (a & b & Ha & Hb & Hne).
      apply Hmem in Ha as (r1 & Hr1 & Ha). apply Hmem in Hb as (r2 & Hr2 & Hb).
      exists r1, r2, a, b. auto.
    + right. split; [reflexivity|]. intros [_ (r1 & r2 & a & b & H)].
      apply Hlen, np_unique_several. exists a, b.
      destruct H as (Hr1 & Hr2 & Ha & Hb & Hne).
      split; [apply Hmem; eauto|]. split; [apply Hmem; eauto | assumption].
  - intros [= <-]. right. split; [reflexivity|]. intros [Hk' _]. contradiction.
Qed.

Lemma varying_elem total_inputs k name data v (name' : string) :
  SoftmaxPlotMain.varying total_inputs k name data = Some v ->
  (name' ∈ v
   <-> name' = name /\ (Z.of_nat k <= total_inputs)%Z /\ differ k data)
  /\ v ⊆+ [name].
Proof.
  intros [(-> & H)|(-> & H)]%varying_spec.
  - split; [|reflexivity]. rewrite list_elem_of_singleton. tauto.
  - split; [|apply submseteq_nil_l]. rewrite elem_of_nil. tauto.
Qed.

(** X17.  When [detect_input_count] succeeds, an input is reported as
    varying exactly when it is one of the [total_inputs] inputs and two
    rows of the table differ in its column; the inputs reported are a
    sub-list of [x0], [x1], [x2], in that order. *)
Theorem varying_inputs_spec (total_inputs : Z) (data : list (list R))
    (names : list string) :
  SoftmaxPlotMain.varying_inputs total_inputs data = Some names ->
  ("x0" ∈ names <-> (1 <= total_inputs)%Z /\ differ 1 data)
  /\ ("x1" ∈ names <-> (2 <= total_inputs)%Z /\ differ 2 data)
  /\ ("x2" ∈ names <-> (3 <= total_inputs)%Z /\ differ 3 data)
  /\ sublist names ["x0"; "x1"; "x2"].
Proof.
  unfold SoftmaxPlotMain.varying_inputs. intros H.
  destruct (SoftmaxPlotMain.varying total_inputs 1 "x0" data)
    as [v0|] eqn:E0; [|discriminate].
  destruct (SoftmaxPlotMain.varying total_inputs 2 "x1" data)
    as [v1|] eqn:E1; [|discriminate].
  destruct (SoftmaxPlotMain.varying total_inputs 3 "x2" data)
    as [v2|] eqn:E2; [|discriminate].
  cbn in H. injection H as <-.
  pose proof (fun n => proj1 (varying_elem _ _ _ _ _ n E0)) as H0.
  pose proof (fun n => proj1 (varying_elem _ _ _ _ _ n E1)) as H1.
  pose proof (fun n => proj1 (varying_elem _ _ _ _ _ n E2)) as H2.
  cbn in H0, H1, H2.
  split; [|split; [|split]].
  1-3: rewrite !elem_of_app, H0, H1, H2; intuition discriminate.
  apply varying_spec in E0, E1, E2.
  destruct E0 as [(-> & _)|(-> & _)], E1 as [(-> & _)|(-> & _)],
    E2 as [(-> & _)|(-> & _)]; cbn;
    repeat first [apply sublist_skip | apply sublist_cons | apply sublist_nil].
Qed.

Lemma varying_inputs_spec_witness :
  "x0" ∈ ["x0"] <-> (1 <= 1)%Z /\ differ 1 [[0; 1; 5]; [1; 2; 6]].
Proof.
  apply (varying_inputs_spec 1 [[0; 1; 5]; [1; 2; 6]] ["x0"]).
  unfold SoftmaxPlotMain.varying_inputs, SoftmaxPlotMain.varying.
  repeat first
    [ progress cbn
    | match goal with
      | |- context [decide ?P] =>
          first [ rewrite (decide_True (P := P)) by (cbn; first [lra | lia])
                | rewrite (decide_False (P := P))
                    by (cbn; first [lra | lia]) ]
      end ].
  reflexivity.
Defined.

(** ** Composition of coordinate filters *)

Lemma parse_filters_app_lookup (p q : list (string * R)) (var : string) :
  SoftmaxPlot.parse_filters (p ++ q) !! var
  = match SoftmaxPlot.parse_filters q !! var with
    | Some val => Some val
    | None => SoftmaxPlot.parse_filters p !! var
    end.
Proof.
  unfold SoftmaxPlot.parse_filters at 1. rewrite foldl_app.
  apply foldl_insert_lookup.
Qed.

Lemma parse_filters_lookup_fst (p : list (string * R)) (var : string) val :
  SoftmaxPlot.parse_filters p !! var = Some val -> var ∈ p.*1.
Proof.
  induction p as [|[k v] p IH] using rev_ind.
  - cbn. rewrite lookup_empty. discriminate.
  - rewrite parse_filters_app_lookup, fmap_app, elem_of_app.
    unfold SoftmaxPlot.parse_filters at 1. cbn.
    destruct (decide (k = var)) as [->|Hne].
    + intros _. right. left.
    + rewrite lookup_insert_ne, lookup_empty by assumption. auto.
Qed.

Lemma filter_data_dtype_names data pairs :
  SoftmaxPlot.dtype_names (SoftmaxPlot.filter_data data pairs)
  = SoftmaxPlot.dtype_names data.
Proof. destruct pairs; reflexivity. Qed.

Lemma ndarray_eq (a b : SoftmaxPlot.ndarray) :
  SoftmaxPlot.dtype_names a = SoftmaxPlot.dtype_names b ->
  SoftmaxPlot.records a = SoftmaxPlot.records b -> a = b.
Proof. destruct a, b. cbn. intros -> ->. reflexivity. Qed.

(** X18.  Filters compose: filtering the result of a filter again keeps
    the records that pass both, so the order of two filters does not
    matter and a filter applied twice changes nothing more; when two
    filter strings name different variables, the joined string
    [p,q] filters as [p] followed by [q].  The field names of the array
    are never changed. *)
Theorem filter_data_compose (data : SoftmaxPlot.ndarray)
    (p q : list (string * R)) :
  SoftmaxPlot.filter_data (SoftmaxPlot.filter_data data p) q
    = SoftmaxPlot.filter_data (SoftmaxPlot.filter_data data q) p
  /\ SoftmaxPlot.filter_data (SoftmaxPlot.filter_data data p) p
    = SoftmaxPlot.filter_data data p
  /\ ((forall var, var ∈ p.*1 -> var ∉ q.*1) ->
      SoftmaxPlot.filter_data data (p ++ q)
      = SoftmaxPlot.filter_data (SoftmaxPlot.filter_data data p) q).
Proof.
  split; [|split].
  - apply ndarray_eq.
    + rewrite !filter_data_dtype_names. reflexivity.
    + rewrite !filter_data_records, !filter_data_dtype_names,
        !list_filter_filter.
      apply list_filter_iff. intros r. tauto.
  - apply ndarray_eq.
    + rewrite !filter_data_dtype_names. reflexivity.
    + rewrite !filter_data_records, !filter_data_dtype_names,
        !list_filter_filter.
      apply list_filter_iff. intros r. tauto.
  - intros Hdisj. apply ndarray_eq.
    + rewrite !filter_data_dtype_names. reflexivity.
    + rewrite !filter_data_records, !filter_data_dtype_names,
        !list_filter_filter.
      apply list_filter_iff. intros r. unfold row_matches. split.
      * intros H. split; intros var val Hlook Hin; apply H; try assumption;
          rewrite parse_filters_app_lookup.
        -- rewrite Hlook. reflexivity.
        -- destruct (SoftmaxPlot.parse_filters q !! var) as [val'|] eqn:E;
             [|assumption].
           exfalso. apply (Hdisj var).
           ++ eapply parse_filters_lookup_fst. eassumption.
           ++ eapply parse_filters_lookup_fst. eassumption.
      * intros [Hq Hp] var val Hlook Hin.
        rewrite parse_filters_app_lookup in Hlook.
        destruct (SoftmaxPlot.parse_filters q !! var) as [val'|] eqn:E.
        -- injection Hlook as <-. apply Hq; assumption.
        -- apply Hp; assumption.
Qed.
